(** * The export-documentation generators, embedded in Rocq

    The repository holds three Python scripts that read three tables
    (objects.csv, fields.csv, enum_values.csv) and print static HTML:

    - [export/obsolete/generate_hierarchy.py]  (module [GenerateHierarchy])
    - [export/standalone/generate_html.py]     (module [GenerateHtml])
    - [export/obsolete/generate_html_wp.py]    (module [GenerateHtmlWp])

    Python dictionaries that the scripts only index by key are finite maps
    ([gmap string _]); the set of object names is a [gset string]; lists stay
    lists.  A table row is a dictionary from column names to strings (a row
    shorter than the header, for which [csv.DictReader] stores [None], is
    outside the embedding).  Exceptions are values of [result]; recursion
    carries an explicit bound on the call depth, as the interpreter does, and
    raises [RecursionError] when the bound is hit.  Strings are byte strings:
    [lower] acts on the ASCII letters only. *)

From Stdlib Require Import Ascii String.
From stdpp Require Import base strings pretty gmap list.

Open Scope string_scope.
Open Scope list_scope.

(** ** Python string primitives *)

Module Py.

(** The double quote character, as a one-character string. *)
Definition dq : string := String (ascii_of_nat 34) EmptyString.

(** [s.endswith(suf)] *)
Fixpoint endswith (s suf : string) : bool :=
  if String.eqb s suf then true
  else match s with
       | EmptyString => false
       | String _ s' => endswith s' suf
       end.

(** [s[:-2]] *)
Definition drop_last2 (s : string) : string :=
  String.substring 0 (String.length s - 2) s.

(** [sep.join(l)] *)
Definition join (sep : string) (l : list string) : string := String.concat sep l.

(** [s.replace(c, by)] for a one-character pattern [c]. *)
Fixpoint replace (c : ascii) (by_ : string) (s : string) : string :=
  match s with
  | EmptyString => EmptyString
  | String a s' =>
      if Ascii.eqb a c then by_ +:+ replace c by_ s'
      else String a (replace c by_ s')
  end.

(** [s.lower()], on the ASCII letters. *)
Definition lower_ascii (a : ascii) : ascii :=
  let n := nat_of_ascii a in
  if (65 <=? n)%nat && (n <=? 90)%nat then ascii_of_nat (n + 32) else a.

Fixpoint lower (s : string) : string :=
  match s with
  | EmptyString => EmptyString
  | String a s' => String (lower_ascii a) (lower s')
  end.

(** [html.escape(s)] of the Python library, with its default [quote=True]:
    the five replacements in the library's order. *)
Definition escape (s : string) : string :=
  replace "'" "&#x27;"
    (replace (ascii_of_nat 34) "&quot;"
       (replace ">" "&gt;" (replace "<" "&lt;" (replace "&" "&amp;" s)))).

End Py.
Export Py.

(** ** Rows, tables and exceptions *)

(** A row of [csv.DictReader]: column name to cell. *)
Abbreviation row := (gmap string string).

(** [r.get(k, "")] *)
Definition get (r : row) (k : string) : string := default EmptyString (r !! k).

Inductive exn : Type :=
  | KeyError (key : string)
  | FileNotFoundError (filename : string)
  | RecursionError.

Inductive result (A : Type) : Type :=
  | Ok (a : A)
  | Raise (e : exn).
Arguments Ok {A} a.
Arguments Raise {A} e.

#[global] Instance result_ret : MRet result := fun A a => Ok a.
#[global] Instance result_bind : MBind result := fun A B k m =>
  match m with
  | Ok a => k a
  | Raise e => Raise e
  end.

(** A [for] loop whose body may raise. *)
Fixpoint foldM {S A} (body : S -> A -> result S) (l : list A) (s : S) : result S :=
  match l with
  | [] => Ok s
  | x :: l' => s' ← body s x; foldM body l' s'
  end.

(** A list built by a comprehension or a loop whose element may raise. *)
Fixpoint mapM_result {A B} (f : A -> result B) (l : list A) : result (list B) :=
  match l with
  | [] => Ok []
  | x :: l' => y ← f x; ys ← mapM_result f l'; Ok (y :: ys)
  end.

(** [r[k]] *)
Definition getitem (r : row) (k : string) : result string :=
  match r !! k with
  | Some v => Ok v
  | None => Raise (KeyError k)
  end.

(** The directory the scripts read: file name to the rows [csv.DictReader]
    yields for it; a name that is not a key is a file that does not exist. *)
Abbreviation directory := (gmap string (list row)).

(** [if k not in m: m[k] = []] followed by [m[k].append(x)]; also
    [m[k].append(x)] on a [defaultdict(list)]. *)
Definition append_to {A} (m : gmap string (list A)) (k : string) (x : A)
  : gmap string (list A) :=
  <[k := default [] (m !! k) ++ [x]]> m.

(** The merge of Location into Site that all three scripts perform on
    their per-object map:
    [if "Location" in m and "Site" in m: m["Site"].extend(m["Location"]); del m["Location"]] *)
Definition merge_location {A} (m : gmap string (list A)) : gmap string (list A) :=
  match m !! "Location", m !! "Site" with
  | Some loc, Some site => delete "Location" (<["Site" := site ++ loc]> m)
  | _, _ => m
  end.

(** The array marker: [is_array] and [base_type] of a type string. *)
Definition is_array_type (ftype : string) : bool := endswith ftype "[]".
Definition base_type_of (ftype : string) : string :=
  if is_array_type ftype then drop_last2 ftype else ftype.

(** ** generate_hierarchy.py *)

Module GenerateHierarchy.

(** [load_csv]: opens the file unconditionally. *)
Definition load_csv (dir : directory) (filename : string) : result (list row) :=
  match dir !! filename with
  | Some rows => Ok rows
  | None => Raise (FileNotFoundError filename)
  end.

(** Entries of the two maps [build_tree] returns. *)
Abbreviation child_entry := (string * string * bool)%type.
Abbreviation prim_entry := (string * string * string)%type.

(** The enum grouping loop: enum name to its raw values. *)
Definition values_by_enum (enum_values : list row) : gmap string (list string) :=
  foldl (fun m val => append_to m (get val "enum") (get val "value")) ∅ enum_values.

(** The display type of a primitive field. *)
Definition type_display (vbe : gmap string (list string)) (base_type : string) : string :=
  match vbe !! base_type with
  | Some vals => join ", " vals
  | None =>
      if decide (base_type = "boolean") then "true, false"
      else if decide (base_type = "datetime") then "ISO 8601 DateTime"
      else base_type
  end.

(** One iteration of the loop over [fields]. *)
Definition classify_field (object_names : gset string)
    (vbe : gmap string (list string))
    (st : gmap string (list child_entry) * gmap string (list prim_entry))
    (field : row)
  : result (gmap string (list child_entry) * gmap string (list prim_entry)) :=
  let '(children, primitives) := st in
  ftype ← getitem field "type";
  fname ← getitem field "json_name";
  parent ← getitem field "object";
  fdesc ← getitem field "description";
  if decide (fname = EmptyString) then Ok (children, primitives)
  else
    let is_array := is_array_type ftype in
    let base_type := base_type_of ftype in
    if decide (base_type ∈ object_names) then
      Ok (append_to children parent (fname, base_type, is_array), primitives)
    else
      Ok (children,
          append_to primitives parent (fname, type_display vbe base_type, fdesc)).

(** The loop over [fields], from empty maps. *)
Definition resolve_fields (object_names : gset string)
    (vbe : gmap string (list string)) (fields : list row)
  : result (gmap string (list child_entry) * gmap string (list prim_entry)) :=
  foldM (classify_field object_names vbe) fields (∅, ∅).

(** [{obj["name"]: obj["description"] for obj in objects}] *)
Definition object_desc_of (objects : list row) : result (gmap string string) :=
  foldM (fun m obj =>
           name ← getitem obj "name";
           desc ← getitem obj "description";
           Ok (<[name := desc]> m)) objects ∅.

Definition build_tree (dir : directory)
  : result (gmap string (list child_entry) * gmap string (list prim_entry)
            * gmap string string) :=
  fields ← load_csv dir "fields.csv";
  objects ← load_csv dir "objects.csv";
  enum_values ← load_csv dir "enum_values.csv";
  names ← mapM_result (fun obj => getitem obj "name") objects;
  let object_names : gset string := list_to_set names in
  object_desc ← object_desc_of objects;
  let vbe := values_by_enum enum_values in
  '(children, primitives) ← resolve_fields object_names vbe fields;
  Ok (children, merge_location primitives, object_desc).

Definition colors : list string :=
  [ "#e8f5e9"; "#fff3e0"; "#e3f2fd"; "#fce4ec";
    "#f3e5f5"; "#e0f7fa"; "#fff8e1"; "#efebe9" ].

Definition border_colors : list string :=
  [ "#4caf50"; "#ff9800"; "#2196f3"; "#e91e63";
    "#9c27b0"; "#00bcd4"; "#ffc107"; "#795548" ].

Definition escape_html (text : string) : string :=
  replace (ascii_of_nat 34) "&quot;"
    (replace ">" "&gt;" (replace "<" "&lt;" (replace "&" "&amp;" text))).

(** One row of an object's table of primitive fields. *)
Definition field_row (e : prim_entry) : string :=
  let '(fname, ftype, fdesc) := e in
  "<tr><td class=" +:+ dq +:+ "pfield-name" +:+ dq +:+ ">" +:+ escape_html fname +:+ "</td><td class=" +:+ dq +:+ "pfield-type" +:+ dq +:+ ">" +:+ escape_html ftype +:+ "</td><td class=" +:+ dq +:+ "pfield-desc" +:+ dq +:+ ">" +:+ escape_html fdesc +:+ "</td></tr>".

Definition fields_table (rows : list prim_entry) : string :=
  "<table class=" +:+ dq +:+ "fields" +:+ dq +:+ ">" +:+ join EmptyString (field_row <$> rows) +:+ "</table>".

Definition children_box (child_items : list string) : string :=
  "<div class=" +:+ dq +:+ "children" +:+ dq +:+ ">" +:+ join EmptyString child_items +:+ "</div>".

Definition node_box (color border label obj_name desc fields_html child_html : string)
  : string :=
  "<div class=" +:+ dq +:+ "node" +:+ dq +:+ " style=" +:+ dq +:+ "background: " +:+ color +:+ "; border-color: " +:+ border +:+ ";" +:+ dq +:+ ">
            <div class=" +:+ dq +:+ "header" +:+ dq +:+ ">
                <span class=" +:+ dq +:+ "field-name" +:+ dq +:+ ">" +:+ label +:+ "</span>
                <span class=" +:+ dq +:+ "type-name" +:+ dq +:+ ">" +:+ obj_name +:+ "</span>
            </div>
            " +:+ (if decide (desc = EmptyString) then EmptyString else "<div class=" +:+ dq +:+ "desc" +:+ dq +:+ ">" +:+ escape_html desc +:+ "</div>") +:+ "
            " +:+ fields_html +:+ "
            " +:+ child_html +:+ "
        </div>".

(** [render_node]; [limit] bounds the depth of the calls below this one.
    [field_name] is [None] for Python's default [None]. *)
Fixpoint render_node (limit : nat)
    (children : gmap string (list child_entry))
    (primitives : gmap string (list prim_entry))
    (descriptions : gmap string string)
    (obj_name : string) (field_name : option string) (is_array : bool)
    (depth : nat) : result string :=
  match limit with
  | O => Raise RecursionError
  | S limit' =>
      let color := nth (depth mod length colors) colors EmptyString in
      let border := nth (depth mod length border_colors) border_colors EmptyString in
      let desc := default EmptyString (descriptions !! obj_name) in
      let label :=
        match field_name with
        | Some f => if decide (f = EmptyString) then obj_name else f
        | None => obj_name
        end in
      let label := if is_array then label +:+ "[]" else label in
      let fields_html :=
        match primitives !! obj_name with
        | Some rows => fields_table rows
        | None => EmptyString
        end in
      child_html ←
        match children !! obj_name with
        | Some cs =>
            child_items ←
              mapM_result
                (fun c : child_entry =>
                   let '(child_field, child_type, child_is_array) := c in
                   render_node limit' children primitives descriptions
                     child_type (Some child_field) child_is_array (depth + 1))
                cs;
            Ok (children_box child_items)
        | None => Ok EmptyString
        end;
      Ok (node_box color border label obj_name desc fields_html child_html)
  end.

Definition page_head : string :=
  "<!DOCTYPE html>
<html lang=" +:+ dq +:+ "en" +:+ dq +:+ ">
<head>
    <meta charset=" +:+ dq +:+ "UTF-8" +:+ dq +:+ ">
    <meta name=" +:+ dq +:+ "viewport" +:+ dq +:+ " content=" +:+ dq +:+ "width=device-width, initial-scale=1.0" +:+ dq +:+ ">
    <link rel=" +:+ dq +:+ "stylesheet" +:+ dq +:+ " href=" +:+ dq +:+ "https://fonts.googleapis.com/css?family=Roboto:400,500,600&display=swap" +:+ dq +:+ ">
    <title>LandPKS JSON Export Hierarchy</title>
    <style>
        * { box-sizing: border-box; }
        body {
            font-family: Roboto, sans-serif;
            background: #f5f5f5;
            margin: 0;
            padding: 20px;
        }
        h1 {
            color: #2c5530;
            margin-bottom: 20px;
        }
        .container {
            max-width: 1400px;
            margin: 0 auto;
        }
        .node {
            border: 2px solid;
            border-radius: 8px;
            padding: 12px;
            margin: 8px 0;
        }
        .header {
            display: flex;
            justify-content: space-between;
            align-items: center;
            margin-bottom: 4px;
        }
        .field-name {
            font-weight: 600;
            font-size: 1em;
            color: #333;
        }
        .type-name {
            font-size: 0.85em;
            color: #666;
            font-style: italic;
        }
        .desc {
            font-size: 0.8em;
            color: #555;
            margin-bottom: 8px;
            padding: 4px 8px;
        }
        .children {
            display: flex;
            flex-wrap: wrap;
            gap: 8px;
            margin-top: 8px;
        }
        .children > .node {
            flex: 1 1 auto;
            min-width: 200px;
        }
        /* Collapse deeply nested to vertical */
        .children .children .children {
            flex-direction: column;
        }
        .children .children .children > .node {
            min-width: unset;
        }
        .legend {
            background: white;
            border: 1px solid #ddd;
            border-radius: 8px;
            padding: 15px;
            margin-bottom: 20px;
        }
        .legend-title {
            font-weight: 600;
            margin-bottom: 8px;
        }
        .legend-item {
            display: inline-block;
            margin-right: 15px;
            font-size: 0.9em;
        }
        .legend-item code {
            background: #eee;
            padding: 2px 6px;
            border-radius: 3px;
        }
        .fields {
            width: 100%;
            border-collapse: collapse;
            font-size: 0.8em;
            margin: 8px 0;
        }
        .fields td {
            padding: 4px 8px;
            border-bottom: 1px solid rgba(0,0,0,0.1);
            vertical-align: top;
        }
        .fields tr:last-child td {
            border-bottom: none;
        }
        .pfield-name {
            font-weight: 500;
            color: #333;
            white-space: nowrap;
            width: 20%;
        }
        .pfield-type {
            color: #666;
            font-style: italic;
            width: 20%;
        }
        .pfield-desc {
            color: #555;
            width: 60%;
        }
    </style>
</head>
<body>
    <div class=" +:+ dq +:+ "container" +:+ dq +:+ ">
        <h1>LandPKS JSON Export Hierarchy</h1>
        <div class=" +:+ dq +:+ "legend" +:+ dq +:+ ">
            <div class=" +:+ dq +:+ "legend-title" +:+ dq +:+ ">Legend</div>
            <span class=" +:+ dq +:+ "legend-item" +:+ dq +:+ "><code>field_name</code> - JSON field name</span>
            <span class=" +:+ dq +:+ "legend-item" +:+ dq +:+ "><em>TypeName</em> - Object type</span>
            <span class=" +:+ dq +:+ "legend-item" +:+ dq +:+ "><code>[]</code> - Array field</span>
        </div>
        ".

Definition page_tail : string :=
  "
    </div>
</body>
</html>".

(** [generate_html]: the tree below the fixed root, in the page frame. *)
Definition generate_html (limit : nat)
    (children : gmap string (list child_entry))
    (primitives : gmap string (list prim_entry))
    (descriptions : gmap string string) : result string :=
  tree_html ← render_node limit children primitives descriptions
                 "Site" (Some "sites") true 0;
  Ok (page_head +:+ tree_html +:+ page_tail).

(** [main], up to the write of the output file: what would be written. *)
Definition main (limit : nat) (dir : directory) : result string :=
  '(children, primitives, descriptions) ← build_tree dir;
  generate_html limit children primitives descriptions.

End GenerateHierarchy.

(** ** What generate_html.py and generate_html_wp.py share

    The two scripts have the same [load_csv] and [load_all_data], and their
    [generate_json_html] and [generate_csv_html] agree statement for
    statement up to the HTML they append; the common statements are
    embedded once here.  ([object_desc] of [generate_json_html] is built
    and never read: it is left out.) *)

Module Sectioned.

(** [load_csv]: the rows, and the line printed when the file is absent. *)
Definition load_csv (dir : directory) (filename : string) : list string * list row :=
  match dir !! filename with
  | None => (["Warning: " +:+ filename +:+ " not found"], [])
  | Some rows => ([], rows)
  end.

(** The dictionary [load_all_data] returns. *)
Record data : Type := Data {
  objects : list row;
  fields : list row;
  enum_values : list row
}.

(** [load_all_data]: the three tables, and the lines printed on the way. *)
Definition load_all_data (dir : directory) : list string * data :=
  let '(out1, objs) := load_csv dir "objects.csv" in
  let '(out2, flds) := load_csv dir "fields.csv" in
  let '(out3, enums) := load_csv dir "enum_values.csv" in
  (out1 ++ out2 ++ out3, Data objs flds enums).

(** [{obj.get("name", "") for obj in objects}] *)
Definition object_names (objects : list row) : gset string :=
  list_to_set ((fun obj => get obj "name") <$> objects).

(** The grouping loop over field rows, on a [defaultdict(list)]. *)
Definition fields_by_object (fields : list row) : gmap string (list row) :=
  foldl (fun m field => append_to m (get field "object") field) ∅ fields.

(** The grouping loop over enum rows. *)
Definition values_by_enum (enum_values : list row) : gmap string (list row) :=
  foldl (fun m val => append_to m (get val "enum") val) ∅ enum_values.

(** The loop that builds [parent_map]: child type to
    (parent object, field name, is_array); a later row overwrites. *)
Definition parent_map (object_names : gset string) (fields : list row)
  : gmap string (string * string * bool) :=
  foldl (fun pm field =>
           let ftype := get field "type" in
           let fname := get field "json_name" in
           let parent_obj := get field "object" in
           if decide (fname = EmptyString) then pm
           else
             let is_array := is_array_type ftype in
             let base_type := base_type_of ftype in
             if decide (base_type ∈ object_names)
             then <[base_type := (parent_obj, fname, is_array)]> pm
             else pm)
        ∅ fields.

(** [compute_json_path]; [limit] bounds the depth of the calls. *)
Fixpoint compute_json_path (limit : nat)
    (parent_map : gmap string (string * string * bool))
    (obj_name : string) : result string :=
  match limit with
  | O => Raise RecursionError
  | S limit' =>
      if decide (obj_name = "Site" ∨ obj_name = "Location") then Ok "sites[]"
      else
        match parent_map !! obj_name with
        | None => Ok EmptyString
        | Some (parent_obj, field_name, is_array) =>
            parent_path ← compute_json_path limit' parent_map parent_obj;
            let suffix := if (is_array : bool) then "[]" else EmptyString in
            Ok (parent_path +:+ "." +:+ field_name +:+ suffix)
        end
  end.

(** [is_json_field] *)
Definition is_json_field (f : row) : Prop := get f "json_name" ≠ EmptyString.

(** [[f for f in fields_by_object.get(name, []) if is_json_field(f)]] *)
Definition obj_fields_of (fbo : gmap string (list row)) (name : string) : list row :=
  filter is_json_field (default [] (fbo !! name)).

(** The loop that selects the objects with JSON fields. *)
Definition json_objects (objects : list row) (fbo : gmap string (list row))
  : list row :=
  foldl (fun acc obj =>
           let name := get obj "name" in
           if decide (name = "Location") then acc
           else if decide (obj_fields_of fbo name = []) then acc
           else acc ++ [obj])
        [] objects.

(** The navigation entry of an object, and the one of the overview. *)
Definition nav_link (name : string) : string :=
  "<a href=" +:+ dq +:+ "#obj-" +:+ lower name +:+ dq +:+ ">" +:+ name +:+ "</a>".

Definition nav_overview : string :=
  "<a href=" +:+ dq +:+ "#overview" +:+ dq +:+ ">Overview</a>".

(** The navigation loop of [generate_json_html]. *)
Definition nav_items (json_objs : list row) : list string :=
  foldl (fun acc obj =>
           let name := get obj "name" in
           acc ++ [nav_link name])
        [nav_overview] json_objs.

(** [link] *)
Definition link (name obj : string) (is_array : bool) : string :=
  let suffix := if is_array then "[]" else EmptyString in
  "<a href=" +:+ dq +:+ "#obj-" +:+ lower obj +:+ dq +:+ ">" +:+ name +:+ suffix +:+ "</a>".

(** The hand-written hierarchy of the overview. *)
Definition structure_html : string :=
  link "sites" "Site" true +:+ "
  " +:+ link "project" "Project" false +:+ "
    " +:+ link "soilSettings" "SoilSettings" false +:+ "
      " +:+ link "depthIntervals" "ProjectDepthInterval" true +:+ "
  " +:+ link "soilData" "SoilData" false +:+ "
    " +:+ link "_depthIntervals" "DepthInterval" true +:+ "
  " +:+ link "notes" "Note" true +:+ "
    " +:+ link "author" "Author" false +:+ "
  " +:+ link "soil_id" "SoilMatches" false +:+ "
    " +:+ link "matches" "SoilMatch" true +:+ "
      " +:+ link "combinedMatch" "MatchScore" false +:+ "
      " +:+ link "dataMatch" "MatchScore" false +:+ "
      " +:+ link "locationMatch" "MatchScore" false +:+ "
      " +:+ link "soilInfo" "SoilInfo" false +:+ "
        " +:+ link "soilSeries" "SoilSeries" false +:+ "
        " +:+ link "ecologicalSite" "EcologicalSite" false +:+ "
        " +:+ link "landCapabilityClass" "LandCapabilityClass" false +:+ "
        " +:+ link "soilData" "MatchSoilData" false +:+ "
          " +:+ link "depthDependentData" "MatchDepthData" true.

(** [[f for f in fields if f.get("csv_column")]] *)
Definition csv_fields (fields : list row) : list row :=
  filter (fun f => get f "csv_column" ≠ EmptyString) fields.

(** The sections of the CSV page, with their display names. *)
Definition sections : list (string * string) :=
  [ ("Site", "Site");
    ("Project", "Project");
    ("Location", "Location");
    ("SoilMatches", "Soil Matches");
    ("EcologicalSite", "Ecological Site");
    ("SoilData", "Soil Data");
    ("DepthInterval", "Depth Intervals") ].

(** What a run of [main] leaves behind: the lines printed, the files
    written (name and content, in the order of the writes) and the exception
    that ended the run, if one did. *)
Record trace : Type := Trace {
  printed : list string;
  written : list (string * string);
  raised : option exn
}.

End Sectioned.

(** ** generate_html.py *)

Module GenerateHtml.
Import Sectioned.

Definition HTML_STYLES : string :=
  "
    <style>
        :root {
            --primary-color: #2c5530;
            --secondary-color: #4a7c4e;
            --bg-color: #ffffff;
            --card-bg: #c7c7c7;
            --border-color: #808080;
            --text-color: #333;
            --text-muted: #666;
            --code-bg: rgba(0, 0, 0, 0);
        }

        * { box-sizing: border-box; }

        body {
            font-family: Roboto, sans-serif;
            line-height: 1.6;
            color: var(--text-color);
            background: var(--bg-color);
            margin: 0;
            padding: 0;
        }

        .container {
            max-width: 1100px;
            margin: 0 auto;
            padding: 20px;
        }

        header {
            background: var(--primary-color);
            color: white;
            padding: 30px 20px;
            margin-bottom: 30px;
        }

        header h1 {
            margin: 0 0 10px 0;
            font-size: 2em;
        }

        header p {
            margin: 0;
            opacity: 0.9;
        }

        nav {
            background: var(--card-bg);
            border: 1px solid var(--border-color);
            border-radius: 8px;
            padding: 15px 20px;
            margin-bottom: 25px;
        }

        nav a {
            display: inline-block;
            padding: 6px 14px;
            margin: 3px;
            background: var(--code-bg);
            border-radius: 4px;
            text-decoration: none;
            color: var(--text-color);
            font-size: 0.9em;
        }

        nav a:hover {
            background: var(--secondary-color);
            color: white;
        }

        section {
            background: var(--card-bg);
            border: 1px solid var(--border-color);
            border-radius: 8px;
            padding: 25px;
            margin-bottom: 25px;
        }

        h2 {
            color: var(--primary-color);
            border-bottom: 2px solid var(--primary-color);
            padding-bottom: 8px;
            margin-top: 0;
            font-size: 1.4em;
        }

        h3 {
            color: var(--secondary-color);
            margin-top: 25px;
            font-size: 1.1em;
        }

        table {
            width: 100%;
            border-collapse: collapse;
            margin: 15px 0;
            font-size: 0.9em;
            table-layout: fixed;
        }

        th, td {
            padding: 10px 12px;
            text-align: left;
            border-bottom: 1px solid var(--border-color);
            vertical-align: top;
            overflow-wrap: break-word;
            word-wrap: break-word;
        }

        th {
            background: var(--code-bg);
            font-weight: 600;
            color: var(--primary-color);
            white-space: nowrap;
        }

        tr:hover { background: var(--bg-color); }

        code {
            background: var(--code-bg);
            padding: 2px 6px;
            border-radius: 3px;
            font-family: " +:+ dq +:+ "SF Mono" +:+ dq +:+ ", Monaco, " +:+ dq +:+ "Courier New" +:+ dq +:+ ", monospace;
            font-size: 0.85em;
        }

        td:first-child code {
            display: block;
        }

        .type { color: var(--secondary-color); }
        .enum-link { color: #9933cc; }

        .badge {
            display: inline-block;
            padding: 2px 6px;
            border-radius: 10px;
            font-size: 0.75em;
            font-weight: 500;
            margin-left: 5px;
        }

        .badge-required { background: #ffe0e0; color: #cc0000; }
        .badge-derived { background: #e0e0ff; color: #0000cc; }

        .description {
            color: var(--text-muted);
            margin-bottom: 15px;
        }

        .muted { color: var(--text-muted); }

        footer {
            text-align: center;
            padding: 20px;
            color: var(--text-muted);
            font-size: 0.85em;
        }

        footer a { color: var(--secondary-color); }
    </style>
".

Definition overview : list string :=
  [ "<section id=" +:+ dq +:+ "overview" +:+ dq +:+ ">";
    "<h2>Overview</h2>";
    "<p>The export API returns site data in JSON format with the following structure. Click on field names to jump to their documentation.</p>";
    "<pre><code>" +:+ structure_html +:+ "</code></pre>";
    "<p>Fields starting with <code>_</code> are derived fields expanded by the export for convenience.</p>";
    "</section>" ].

(** The type cell of a JSON field. *)
Definition type_html (object_names : gset string)
    (vbe : gmap string (list row)) (base_type : string) : string :=
  match vbe !! base_type with
  | Some enum_vals =>
      let raw_values := (fun v => get v "value") <$> enum_vals in
      join ", " (escape <$> raw_values)
  | None =>
      if decide (base_type = "boolean") then "<span class=" +:+ dq +:+ "type" +:+ dq +:+ ">true, false</span>"
      else if decide (base_type = "datetime") then "<span class=" +:+ dq +:+ "type" +:+ dq +:+ ">ISO 8601 DateTime</span>"
      else if decide (base_type ∈ object_names) then
        "<a href=" +:+ dq +:+ "#obj-" +:+ lower base_type +:+ dq +:+ ">" +:+ escape base_type +:+ "</a>"
      else "<span class=" +:+ dq +:+ "type" +:+ dq +:+ ">" +:+ escape base_type +:+ "</span>"
  end.

(** The three strings appended for one field of an object. *)
Definition field_cells (object_names : gset string)
    (vbe : gmap string (list row)) (f : row) : list string :=
  let fname := get f "json_name" in
  let ftype := get f "type" in
  let fdesc := get f "description" in
  let is_array := is_array_type ftype in
  let base_type := base_type_of ftype in
  let fname_html :=
    if is_array then "<code>" +:+ escape fname +:+ "[]</code>"
    else "<code>" +:+ escape fname +:+ "</code>" in
  let type_html := type_html object_names vbe base_type in
  [ "<tr><td>" +:+ fname_html +:+ "</td>";
    "<td>" +:+ type_html +:+ "</td>";
    "<td>" +:+ escape fdesc +:+ "</td></tr>" ].

(** What one iteration of the loop over [json_objects] appends before
    and after the rows of the fields. *)
Definition section_head (name desc path : string) : list string :=
  [ "<section id=" +:+ dq +:+ "obj-" +:+ lower name +:+ dq +:+ ">";
    "<h2>" +:+ escape name +:+ "</h2>" ]
  ++ (if decide (desc = EmptyString) then []
      else [ "<p class=" +:+ dq +:+ "description" +:+ dq +:+ ">" +:+ escape desc +:+ "</p>" ])
  ++ (if decide (path = EmptyString) then []
      else [ "<p class=" +:+ dq +:+ "muted" +:+ dq +:+ ">JSON path: <code>" +:+ escape path +:+ "</code></p>" ])
  ++ [ "<table>";
       "<tr><th style=" +:+ dq +:+ "width:20%" +:+ dq +:+ ">Field</th><th style=" +:+ dq +:+ "width:20%" +:+ dq +:+ ">Type</th><th style=" +:+ dq +:+ "width:60%" +:+ dq +:+ ">Description</th></tr>" ].

Definition section_tail : list string :=
  [ "</table>"; "</section>" ].

(** One iteration of the loop over [json_objects]: what it appends. *)
Definition object_section (limit : nat) (object_names : gset string)
    (vbe : gmap string (list row)) (pm : gmap string (string * string * bool))
    (fbo : gmap string (list row)) (obj : row) : result (list string) :=
  let name := get obj "name" in
  let desc := get obj "description" in
  path ← compute_json_path limit pm name;
  let obj_fields := obj_fields_of fbo name in
  if decide (obj_fields = []) then Ok []
  else
    Ok (section_head name desc path
        ++ foldl (fun rows f => rows ++ field_cells object_names vbe f) [] obj_fields
        ++ section_tail).

Definition json_page (nav body now : string) : string :=
  "<!DOCTYPE html>
<html lang=" +:+ dq +:+ "en" +:+ dq +:+ ">
<head>
    <meta charset=" +:+ dq +:+ "UTF-8" +:+ dq +:+ ">
    <meta name=" +:+ dq +:+ "viewport" +:+ dq +:+ " content=" +:+ dq +:+ "width=device-width, initial-scale=1.0" +:+ dq +:+ ">
    <link rel=" +:+ dq +:+ "stylesheet" +:+ dq +:+ " href=" +:+ dq +:+ "https://fonts.googleapis.com/css?family=Roboto:400,500,600&display=swap" +:+ dq +:+ ">
    <title>LandPKS JSON Export Format</title>
    " +:+ HTML_STYLES +:+ "
</head>
<body>
    <header>
        <div class=" +:+ dq +:+ "container" +:+ dq +:+ ">
            <h1>LandPKS JSON Export Format</h1>
            <p>Documentation for the JSON format returned by the export API</p>
        </div>
    </header>
    <div class=" +:+ dq +:+ "container" +:+ dq +:+ ">
        <nav>
            " +:+ nav +:+ "
            <span class=" +:+ dq +:+ "muted" +:+ dq +:+ " style=" +:+ dq +:+ "margin-left: 20px;" +:+ dq +:+ ">See also: <a href=" +:+ dq +:+ "csv_format.html" +:+ dq +:+ ">CSV Format</a></span>
        </nav>
        " +:+ body +:+ "
        <footer>
            Generated on " +:+ now +:+ " ·
            <a href=" +:+ dq +:+ "https://github.com/techmatters/terraso-backend" +:+ dq +:+ ">terraso-backend</a>
        </footer>
    </div>
</body>
</html>".

(** The list [content] when the loops are done. *)
Definition json_content (limit : nat) (d : data) : result (list string) :=
  let object_names := object_names (objects d) in
  let vbe := values_by_enum (enum_values d) in
  let pm := parent_map object_names (fields d) in
  let fbo := merge_location (fields_by_object (fields d)) in
  foldM (fun content obj =>
           sec ← object_section limit object_names vbe pm fbo obj;
           Ok (content ++ sec))
        (json_objects (objects d) fbo) overview.

(** [generate_json_html]; [now] is the formatted reading of the clock. *)
Definition generate_json_html (limit : nat) (now : string) (d : data)
  : result string :=
  let fbo := merge_location (fields_by_object (fields d)) in
  let nav_items := nav_items (json_objects (objects d) fbo) in
  content ← json_content limit d;
  Ok (json_page (join " " nav_items) (join EmptyString content) now).

(** The navigation loop of [generate_csv_html]: every declared section. *)
Definition csv_nav_items : list string :=
  foldl (fun acc sec =>
           let '(obj_name, display_name) := sec in
           acc ++ ["<a href=" +:+ dq +:+ "#csv-" +:+ lower obj_name +:+ dq +:+ ">" +:+ display_name +:+ "</a>"])
        [] sections.

Definition csv_overview : list string :=
  [ "<section id=" +:+ dq +:+ "overview" +:+ dq +:+ ">";
    "<h2>Overview</h2>";
    "<p>The CSV export produces <strong>one row per depth interval per site</strong>. Site-level fields repeat on each row.</p>";
    "</section>" ].

(** The type cell of a CSV field. *)
Definition csv_type_html (vbe : gmap string (list row)) (ftype : string) : string :=
  match vbe !! ftype with
  | Some enum_vals =>
      let val_labels := (fun v => get v "label") <$> enum_vals in
      join ", " (escape <$> val_labels)
  | None =>
      if decide (ftype = "boolean") then "<span class=" +:+ dq +:+ "type" +:+ dq +:+ ">TRUE, FALSE</span>"
      else "<span class=" +:+ dq +:+ "type" +:+ dq +:+ ">" +:+ escape ftype +:+ "</span>"
  end.

Definition csv_field_cells (vbe : gmap string (list row)) (f : row) : list string :=
  let csv_col := get f "csv_column" in
  let ftype := get f "type" in
  let fdesc := get f "description" in
  let type_html := csv_type_html vbe ftype in
  [ "<tr><td>" +:+ escape csv_col +:+ "</td>";
    "<td>" +:+ type_html +:+ "</td>";
    "<td>" +:+ escape fdesc +:+ "</td></tr>" ].

(** What one iteration of the loop over [sections] appends before and
    after the rows of the fields. *)
Definition csv_section_head (sec : string * string) : list string :=
  let '(obj_name, display_name) := sec in
  [ "<section id=" +:+ dq +:+ "csv-" +:+ lower obj_name +:+ dq +:+ ">";
    "<h2>" +:+ display_name +:+ "</h2>" ]
  ++ (if decide (obj_name = "DepthInterval")
      then [ "<p class=" +:+ dq +:+ "description" +:+ dq +:+ ">One row per depth interval. Intervals are determined by the site's depth interval preset.</p>" ]
      else [])
  ++ [ "<table>";
       "<tr><th style=" +:+ dq +:+ "width:20%" +:+ dq +:+ ">CSV Column</th><th style=" +:+ dq +:+ "width:20%" +:+ dq +:+ ">Type</th><th style=" +:+ dq +:+ "width:60%" +:+ dq +:+ ">Description</th></tr>" ].

Definition csv_section_tail : list string :=
  [ "</table>"; "</section>" ].

(** One iteration of the loop over [sections]: what it appends, given
    [obj_fields = fields_by_object.get(obj_name, [])]. *)
Definition csv_section (vbe : gmap string (list row))
    (sec : string * string) (obj_fields : list row) : list string :=
  if decide (obj_fields = []) then []
  else
    csv_section_head sec
    ++ foldl (fun rows f => rows ++ csv_field_cells vbe f) [] obj_fields
    ++ csv_section_tail.

(** The list [content] of [generate_csv_html] when the loop is done. *)
Definition csv_content (d : data) : list string :=
  let vbe := values_by_enum (enum_values d) in
  let fbo := fields_by_object (csv_fields (fields d)) in
  foldl (fun content sec => content ++ csv_section vbe sec (default [] (fbo !! sec.1)))
        csv_overview sections.

Definition csv_page (nav body now : string) : string :=
  "<!DOCTYPE html>
<html lang=" +:+ dq +:+ "en" +:+ dq +:+ ">
<head>
    <meta charset=" +:+ dq +:+ "UTF-8" +:+ dq +:+ ">
    <meta name=" +:+ dq +:+ "viewport" +:+ dq +:+ " content=" +:+ dq +:+ "width=device-width, initial-scale=1.0" +:+ dq +:+ ">
    <link rel=" +:+ dq +:+ "stylesheet" +:+ dq +:+ " href=" +:+ dq +:+ "https://fonts.googleapis.com/css?family=Roboto:400,500,600&display=swap" +:+ dq +:+ ">
    <title>LandPKS CSV Export Format</title>
    " +:+ HTML_STYLES +:+ "
</head>
<body>
    <header>
        <div class=" +:+ dq +:+ "container" +:+ dq +:+ ">
            <h1>LandPKS CSV Export Format</h1>
            <p>Documentation for the CSV format returned by the export API</p>
        </div>
    </header>
    <div class=" +:+ dq +:+ "container" +:+ dq +:+ ">
        <nav>
            " +:+ nav +:+ "
            <span class=" +:+ dq +:+ "muted" +:+ dq +:+ " style=" +:+ dq +:+ "margin-left: 20px;" +:+ dq +:+ ">See also: <a href=" +:+ dq +:+ "json_format.html" +:+ dq +:+ ">JSON Format</a></span>
        </nav>
        " +:+ body +:+ "
        <footer>
            Generated on " +:+ now +:+ " ·
            <a href=" +:+ dq +:+ "https://github.com/techmatters/terraso-backend" +:+ dq +:+ ">terraso-backend</a>
        </footer>
    </div>
</body>
</html>".

(** [generate_csv_html] *)
Definition generate_csv_html (now : string) (d : data) : string :=
  csv_page (join " " csv_nav_items) (join EmptyString (csv_content d)) now.

(** [main].  [now_json] and [now_csv] are the readings of the clock of the
    two generators; [path_text name] is the text of [SCRIPT_DIR / name]. *)
Definition main (limit : nat) (now_json now_csv : string)
    (path_text : string -> string) (dir : directory) : trace :=
  let '(warnings, d) := load_all_data dir in
  let total := (length (objects d) + length (fields d) + length (enum_values d))%nat in
  let out := ["Loading CSV files..."] ++ warnings
             ++ [ "Loaded " +:+ pretty total +:+ " total rows";
                  "Generating JSON format documentation..." ] in
  match generate_json_html limit now_json d with
  | Raise e => Trace out [] (Some e)
  | Ok json_html =>
      let csv_html := generate_csv_html now_csv d in
      Trace (out ++ [ "  Written to " +:+ path_text "json_format.html";
                      "Generating CSV format documentation...";
                      "  Written to " +:+ path_text "csv_format.html";
                      "Done!" ])
            [ ("json_format.html", json_html); ("csv_format.html", csv_html) ]
            None
  end.

End GenerateHtml.

(** ** generate_html_wp.py *)

Module GenerateHtmlWp.
Import Sectioned.

Definition SCOPED_STYLES : string :=
  "
<style>
/* Scoped styles for export docs - minimal overrides */
#export-docs .nav-links {
    margin-bottom: 1.5em;
    padding: 1em;
    background: #f5f5f5;
    border-radius: 4px;
}
#export-docs .nav-links a {
    display: inline-block;
    margin: 0.25em 0.5em 0.25em 0;
    padding: 0.25em 0.75em;
    background: #e0e0e0;
    border-radius: 3px;
    text-decoration: none;
}
#export-docs .nav-links a:hover {
    background: #4a7c4e;
    color: white;
}
#export-docs table {
    width: 100%;
    border-collapse: collapse;
    margin: 1em 0;
}
#export-docs th,
#export-docs td {
    padding: 0.5em 0.75em;
    text-align: left;
    border-bottom: 1px solid #ddd;
    vertical-align: top;
}
#export-docs th {
    background: #f9f9f9;
    font-weight: 600;
}
#export-docs code {
    background: #f5f5f5;
    padding: 0.1em 0.4em;
    border-radius: 3px;
    font-size: 0.9em;
}
#export-docs pre {
    background: #f5f5f5;
    padding: 1em;
    border-radius: 4px;
    overflow-x: auto;
}
#export-docs .section {
    margin-bottom: 2em;
}
#export-docs .muted {
    color: #666;
}
#export-docs .json-path {
    color: #666;
    font-size: 0.9em;
    margin-bottom: 1em;
}
</style>
".

Definition overview : list string :=
  [ "<div class=" +:+ dq +:+ "section" +:+ dq +:+ " id=" +:+ dq +:+ "overview" +:+ dq +:+ ">";
    "<h2>Overview</h2>";
    "<p>The export API returns site data in JSON format with the following structure:</p>";
    "<pre><code>" +:+ structure_html +:+ "</code></pre>";
    "<p>Fields starting with <code>_</code> are derived fields expanded by the export.</p>";
    "</div>" ].

(** The type cell of a JSON field. *)
Definition type_html (object_names : gset string)
    (vbe : gmap string (list row)) (base_type : string) : string :=
  match vbe !! base_type with
  | Some enum_vals =>
      let raw_values := (fun v => get v "value") <$> enum_vals in
      join ", " (escape <$> raw_values)
  | None =>
      if decide (base_type = "boolean") then "true, false"
      else if decide (base_type = "datetime") then "ISO 8601 DateTime"
      else if decide (base_type ∈ object_names) then
        "<a href=" +:+ dq +:+ "#obj-" +:+ lower base_type +:+ dq +:+ ">" +:+ escape base_type +:+ "</a>"
      else escape base_type
  end.

(** The string appended for one field of an object. *)
Definition field_cells (object_names : gset string)
    (vbe : gmap string (list row)) (f : row) : list string :=
  let fname := get f "json_name" in
  let ftype := get f "type" in
  let fdesc := get f "description" in
  let is_array := is_array_type ftype in
  let base_type := base_type_of ftype in
  let fname_html :=
    if is_array then "<code>" +:+ escape fname +:+ "[]</code>"
    else "<code>" +:+ escape fname +:+ "</code>" in
  let type_html := type_html object_names vbe base_type in
  [ "<tr><td>" +:+ fname_html +:+ "</td><td>" +:+ type_html +:+ "</td><td>" +:+ escape fdesc +:+ "</td></tr>" ].

(** What one iteration of the loop over [json_objects] appends before
    and after the rows of the fields. *)
Definition section_head (name desc path : string) : list string :=
  [ "<div class=" +:+ dq +:+ "section" +:+ dq +:+ " id=" +:+ dq +:+ "obj-" +:+ lower name +:+ dq +:+ ">";
    "<h2>" +:+ escape name +:+ "</h2>" ]
  ++ (if decide (desc = EmptyString) then []
      else [ "<p>" +:+ escape desc +:+ "</p>" ])
  ++ (if decide (path = EmptyString) then []
      else [ "<p class=" +:+ dq +:+ "json-path" +:+ dq +:+ ">JSON path: <code>" +:+ escape path +:+ "</code></p>" ])
  ++ [ "<table>";
       "<thead><tr><th>Field</th><th>Type</th><th>Description</th></tr></thead>";
       "<tbody>" ].

Definition section_tail : list string :=
  [ "</tbody></table>"; "</div>" ].

(** One iteration of the loop over [json_objects]: what it appends. *)
Definition object_section (limit : nat) (object_names : gset string)
    (vbe : gmap string (list row)) (pm : gmap string (string * string * bool))
    (fbo : gmap string (list row)) (obj : row) : result (list string) :=
  let name := get obj "name" in
  let desc := get obj "description" in
  path ← compute_json_path limit pm name;
  let obj_fields := obj_fields_of fbo name in
  if decide (obj_fields = []) then Ok []
  else
    Ok (section_head name desc path
        ++ foldl (fun rows f => rows ++ field_cells object_names vbe f) [] obj_fields
        ++ section_tail).

Definition json_page (nav body : string) : string :=
  "<!-- WordPress Export Docs - JSON Format -->
" +:+ SCOPED_STYLES +:+ "
<div id=" +:+ dq +:+ "export-docs" +:+ dq +:+ ">
    <h1>LandPKS JSON Export Format</h1>
    <p>Documentation for the JSON format returned by the export API</p>

    <div class=" +:+ dq +:+ "nav-links" +:+ dq +:+ ">
        " +:+ nav +:+ "
        <span class=" +:+ dq +:+ "muted" +:+ dq +:+ " style=" +:+ dq +:+ "margin-left: 1em;" +:+ dq +:+ ">See also: <a href=" +:+ dq +:+ "csv_format_wp.html" +:+ dq +:+ ">CSV Format</a></span>
    </div>

    " +:+ body +:+ "
</div>
".

(** The list [content] when the loops are done. *)
Definition json_content (limit : nat) (d : data) : result (list string) :=
  let object_names := object_names (objects d) in
  let vbe := values_by_enum (enum_values d) in
  let pm := parent_map object_names (fields d) in
  let fbo := merge_location (fields_by_object (fields d)) in
  foldM (fun content obj =>
           sec ← object_section limit object_names vbe pm fbo obj;
           Ok (content ++ sec))
        (json_objects (objects d) fbo) overview.

(** [generate_json_html] *)
Definition generate_json_html (limit : nat) (d : data) : result string :=
  let fbo := merge_location (fields_by_object (fields d)) in
  let nav_items := nav_items (json_objects (objects d) fbo) in
  content ← json_content limit d;
  Ok (json_page (join " " nav_items) (join EmptyString content)).

(** The navigation loop of [generate_csv_html]: the sections with fields. *)
Definition csv_nav_items (fbo : gmap string (list row)) : list string :=
  foldl (fun acc sec =>
           let '(obj_name, display_name) := sec in
           if decide (default [] (fbo !! obj_name) = []) then acc
           else acc ++ ["<a href=" +:+ dq +:+ "#csv-" +:+ lower obj_name +:+ dq +:+ ">" +:+ display_name +:+ "</a>"])
        [] sections.

Definition csv_overview : list string :=
  [ "<div class=" +:+ dq +:+ "section" +:+ dq +:+ " id=" +:+ dq +:+ "overview" +:+ dq +:+ ">";
    "<h2>Overview</h2>";
    "<p>The CSV export produces <strong>one row per depth interval per site</strong>. Site-level fields repeat on each row.</p>";
    "</div>" ].

(** The type cell of a CSV field. *)
Definition csv_type_html (vbe : gmap string (list row)) (ftype : string) : string :=
  match vbe !! ftype with
  | Some enum_vals =>
      let val_labels := (fun v => get v "label") <$> enum_vals in
      join ", " (escape <$> val_labels)
  | None =>
      if decide (ftype = "boolean") then "TRUE, FALSE"
      else escape ftype
  end.

Definition csv_field_cells (vbe : gmap string (list row)) (f : row) : list string :=
  let csv_col := get f "csv_column" in
  let ftype := get f "type" in
  let fdesc := get f "description" in
  let type_html := csv_type_html vbe ftype in
  [ "<tr><td>" +:+ escape csv_col +:+ "</td><td>" +:+ type_html +:+ "</td><td>" +:+ escape fdesc +:+ "</td></tr>" ].

(** What one iteration of the loop over [sections] appends before and
    after the rows of the fields. *)
Definition csv_section_head (sec : string * string) : list string :=
  let '(obj_name, display_name) := sec in
  [ "<div class=" +:+ dq +:+ "section" +:+ dq +:+ " id=" +:+ dq +:+ "csv-" +:+ lower obj_name +:+ dq +:+ ">";
    "<h2>" +:+ display_name +:+ "</h2>" ]
  ++ (if decide (obj_name = "DepthInterval")
      then [ "<p>One row per depth interval. Intervals are determined by the site's depth interval preset.</p>" ]
      else [])
  ++ [ "<table>";
       "<thead><tr><th>CSV Column</th><th>Type</th><th>Description</th></tr></thead>";
       "<tbody>" ].

Definition csv_section_tail : list string :=
  [ "</tbody></table>"; "</div>" ].

(** One iteration of the loop over [sections]: what it appends, given
    [obj_fields = fields_by_object.get(obj_name, [])]. *)
Definition csv_section (vbe : gmap string (list row))
    (sec : string * string) (obj_fields : list row) : list string :=
  if decide (obj_fields = []) then []
  else
    csv_section_head sec
    ++ foldl (fun rows f => rows ++ csv_field_cells vbe f) [] obj_fields
    ++ csv_section_tail.

(** The list [content] of [generate_csv_html] when the loop is done. *)
Definition csv_content (d : data) : list string :=
  let vbe := values_by_enum (enum_values d) in
  let fbo := fields_by_object (csv_fields (fields d)) in
  foldl (fun content sec => content ++ csv_section vbe sec (default [] (fbo !! sec.1)))
        csv_overview sections.

Definition csv_page (nav body : string) : string :=
  "<!-- WordPress Export Docs - CSV Format -->
" +:+ SCOPED_STYLES +:+ "
<div id=" +:+ dq +:+ "export-docs" +:+ dq +:+ ">
    <h1>LandPKS CSV Export Format</h1>
    <p>Documentation for the CSV format returned by the export API</p>

    <div class=" +:+ dq +:+ "nav-links" +:+ dq +:+ ">
        " +:+ nav +:+ "
        <span class=" +:+ dq +:+ "muted" +:+ dq +:+ " style=" +:+ dq +:+ "margin-left: 1em;" +:+ dq +:+ ">See also: <a href=" +:+ dq +:+ "json_format_wp.html" +:+ dq +:+ ">JSON Format</a></span>
    </div>

    " +:+ body +:+ "
</div>
".

(** [generate_csv_html] *)
Definition generate_csv_html (d : data) : string :=
  let fbo := fields_by_object (csv_fields (fields d)) in
  csv_page (join " " (csv_nav_items fbo)) (join EmptyString (csv_content d)).

(** [main].  [path_text name] is the text of [SCRIPT_DIR / name]. *)
Definition main (limit : nat) (path_text : string -> string) (dir : directory)
  : trace :=
  let '(warnings, d) := load_all_data dir in
  let out := ["Loading CSV files..."] ++ warnings
             ++ [ "Generating WordPress-friendly JSON format..." ] in
  match generate_json_html limit d with
  | Raise e => Trace out [] (Some e)
  | Ok json_html =>
      let csv_html := generate_csv_html d in
      Trace (out ++ [ "  Written to " +:+ path_text "json_format_wp.html";
                      "Generating WordPress-friendly CSV format...";
                      "  Written to " +:+ path_text "csv_format_wp.html";
                      "Done!" ])
            [ ("json_format_wp.html", json_html); ("csv_format_wp.html", csv_html) ]
            None
  end.

End GenerateHtmlWp.

(** ** Vocabulary of the statements *)

(** A row has the columns [cols]: indexing it by any of them does not raise. *)
Definition has_columns (cols : list string) (r : row) : Prop :=
  Forall (fun c => is_Some (r !! c)) cols.

(** The columns [build_tree] indexes in a row of fields.csv and of objects.csv. *)
Definition field_columns : list string := ["type"; "json_name"; "object"; "description"].
Definition object_columns : list string := ["name"; "description"].

(** Properties of a row of fields.csv. *)
Definition json_named (f : row) : Prop := get f "json_name" ≠ EmptyString.
Definition is_reference (names : gset string) (f : row) : Prop :=
  base_type_of (get f "type") ∈ names.
Definition owned_by (o : string) (f : row) : Prop := get f "object" = o.

(** The rows of [o] that [build_tree] files under children, and under primitives. *)
Definition child_row (names : gset string) (o : string) (f : row) : Prop :=
  owned_by o f ∧ json_named f ∧ is_reference names f.
Definition prim_row (names : gset string) (o : string) (f : row) : Prop :=
  owned_by o f ∧ json_named f ∧ ¬ is_reference names f.

(** The entry [build_tree] appends for a row: to children, and to primitives. *)
Definition as_child (f : row) : GenerateHierarchy.child_entry :=
  (get f "json_name", base_type_of (get f "type"), is_array_type (get f "type")).
Definition as_prim (vbe : gmap string (list string)) (f : row)
  : GenerateHierarchy.prim_entry :=
  (get f "json_name",
   GenerateHierarchy.type_display vbe (base_type_of (get f "type")),
   get f "description").

(** Per-object lists after the merge, from the lists [rows] before it: when
    Location and Site both have entries, Site gets Location's after its own
    and Location is left with none. *)
Definition merged {A} (rows : string -> list A) (o : string) : list A :=
  if decide (rows "Location" ≠ [] ∧ rows "Site" ≠ []) then
    if decide (o = "Site") then rows "Site" ++ rows "Location"
    else if decide (o = "Location") then []
    else rows o
  else rows o.

(** The state of a grouping loop after the rows [l]: every key holds the
    entries of its rows that satisfy [P], in the order of [l], and a key
    without such rows is absent. *)
Definition grouped {A B} (key : A -> string) (val : A -> B) (P : A -> Prop)
    `{!∀ x, Decision (P x)} (l : list A) (m : gmap string (list B)) : Prop :=
  ∀ k, m !! k =
       (if decide (filter (fun x => key x = k ∧ P x) l = []) then None
        else Some (val <$> filter (fun x => key x = k ∧ P x) l)).

(** A run that ends normally or by exceeding the recursion depth: no
    [KeyError], no [FileNotFoundError]. *)
Definition soft_outcome {A} (r : result A) : Prop :=
  r = Raise RecursionError ∨ ∃ a, r = Ok a.

(** The object-reference relation of the children map, and of [parent_map]. *)
Definition child_edge (ch : gmap string (list GenerateHierarchy.child_entry))
    (a b : string) : Prop :=
  ∃ f arr, (f, b, arr) ∈ default [] (ch !! a).

Definition parent_edge (pm : gmap string (string * string * bool)) (a b : string) : Prop :=
  ∃ f arr, pm !! a = Some (b, f, arr).

Definition acyclic {A} (R : relation A) : Prop := ∀ a, ¬ tc R a a.

(** The objects [compute_json_path] maps to the literal path. *)
Definition is_root (o : string) : Prop := o = "Site" ∨ o = "Location".

(** [walk pm o hops top]: following [parent_map] upward from [o] stops at
    [top], which is a root or has no parent; [hops] are the (field, is_array)
    pairs passed on the way, the one nearest to [top] first. *)
Inductive walk (pm : gmap string (string * string * bool))
  : string -> list (string * bool) -> string -> Prop :=
  | walk_stop o : is_root o ∨ pm !! o = None -> walk pm o [] o
  | walk_hop o par f arr hops top :
      ¬ is_root o -> pm !! o = Some (par, f, arr) -> walk pm par hops top ->
      walk pm o (hops ++ [(f, arr)]) top.

Definition hop_text (h : string * bool) : string :=
  "." +:+ h.1 +:+ (if h.2 then "[]" else EmptyString).

(** The dotted path: the literal of the root when [top] is one, then the hops. *)
Definition dotted (top : string) (hops : list (string * bool)) : string :=
  (if decide (is_root top) then "sites[]" else EmptyString)
  +:+ join EmptyString (hop_text <$> hops).

#[global] Instance json_named_dec f : Decision (json_named f).
Proof. unfold json_named. apply _. Defined.
#[global] Instance is_reference_dec names f : Decision (is_reference names f).
Proof. unfold is_reference. apply _. Defined.
#[global] Instance owned_by_dec o f : Decision (owned_by o f).
Proof. unfold owned_by. apply _. Defined.
#[global] Instance child_row_dec names o f : Decision (child_row names o f).
Proof. unfold child_row. apply _. Defined.
#[global] Instance prim_row_dec names o f : Decision (prim_row names o f).
Proof. unfold prim_row. apply _. Defined.
#[global] Instance has_columns_dec cols r : Decision (has_columns cols r).
Proof. unfold has_columns. apply _. Defined.
#[global] Instance is_root_dec o : Decision (is_root o).
Proof. unfold is_root. apply _. Defined.

(** ** Vocabulary of the further properties *)

(** One pass over the characters of a string, each replaced by its code. *)
Fixpoint encode (code : ascii -> string) (s : string) : string :=
  match s with
  | EmptyString => EmptyString
  | String a s' => code a +:+ encode code s'
  end.

(** What [escape_html] leaves in the place of one character. *)
Definition html_entity (a : ascii) : string :=
  if Ascii.eqb a "&" then "&amp;"
  else if Ascii.eqb a "<" then "&lt;"
  else if Ascii.eqb a ">" then "&gt;"
  else if Ascii.eqb a (ascii_of_nat 34) then "&quot;"
  else String a EmptyString.

(** What [html.escape] leaves in the place of one character. *)
Definition html_entity_quoted (a : ascii) : string :=
  if Ascii.eqb a "'" then "&#x27;" else html_entity a.

(** The characters of a string. *)
Definition chars (s : string) : list ascii := list_ascii_of_string s.

(** A row that enters [parent_map] under the key [t]; the entry it leaves. *)
Definition refers_to (names : gset string) (t : string) (f : row) : Prop :=
  json_named f ∧ base_type_of (get f "type") = t ∧ t ∈ names.
Definition as_parent (f : row) : string * string * bool :=
  (get f "object", get f "json_name", is_array_type (get f "type")).

#[global] Instance refers_to_dec names t f : Decision (refers_to names t f).
Proof. unfold refers_to. apply _. Defined.

(** A row that the CSV pages can show: it names a CSV column and is owned
    by the object of a declared section. *)
Definition on_csv_page (f : row) : Prop :=
  get f "csv_column" ≠ EmptyString ∧ get f "object" ∈ Sectioned.sections.*1.

#[global] Instance on_csv_page_dec f : Decision (on_csv_page f).
Proof. unfold on_csv_page. apply _. Defined.

(** The navigation entry of a section of the CSV pages. *)
Definition csv_nav_link (sec : string * string) : string :=
  "<a href=" +:+ dq +:+ "#csv-" +:+ lower sec.1 +:+ dq +:+ ">" +:+ sec.2 +:+ "</a>".

(** The hop [compute_json_path] takes from an object to its parent: the
    roots are not left. *)
Definition climb (pm : gmap string (string * string * bool)) (a b : string) : Prop :=
  ¬ is_root a ∧ parent_edge pm a b.

(** From [a] the relation leads into a cycle. *)
Definition leads_to_cycle {A} (R : relation A) (a : A) : Prop :=
  ∃ c, rtc R a c ∧ tc R c c.

(** The entries of a map under the keys in [keep]. *)
Definition restrict {A} (keep : gset string) (m : gmap string A) : gmap string A :=
  filter (fun kv => kv.1 ∈ keep) m.

(** [keep] holds every object that a member of [keep] refers to. *)
Definition closed_under (ch : gmap string (list GenerateHierarchy.child_entry))
    (keep : gset string) : Prop :=
  map_Forall (fun a cs =>
                a ∈ keep -> Forall (fun c : GenerateHierarchy.child_entry => c.1.2 ∈ keep) cs) ch.

#[global] Instance closed_under_dec ch keep : Decision (closed_under ch keep).
Proof. unfold closed_under. apply _. Defined.

(** How often a character occurs in a string. *)
Definition occurrences (a : ascii) (s : string) : nat :=
  length (filter (fun c => c = a) (chars s)).

(** ** Sample tables *)

Module Examples.

Definition mk_row (cells : list (string * string)) : row := list_to_map cells.

Definition mk_object (name description : string) : row :=
  mk_row [("name", name); ("description", description)].

Definition mk_field (object json_name csv_column type description : string) : row :=
  mk_row [("object", object); ("json_name", json_name); ("csv_column", csv_column);
          ("type", type); ("description", description)].

Definition mk_enum_value (enum value label : string) : row :=
  mk_row [("enum", enum); ("value", value); ("label", label)].

Definition site_name : row :=
  mk_field "Site" "name" "Site name" "string" "The name of the site".
Definition site_id : row :=
  mk_field "Site" EmptyString "Site ID" "string" "Identifier, CSV only".
Definition site_notes : row :=
  mk_field "Site" "notes" EmptyString "Note[]" "Notes on the site".
Definition location_latitude : row :=
  mk_field "Location" "latitude" "Latitude" "float" "Latitude of the site".
Definition note_author : row :=
  mk_field "Note" "author" EmptyString "Author" "Who wrote the note".
Definition note_flags : row :=
  mk_field "Note" "flags" EmptyString "Status[]" "States the note went through".
Definition author_email : row :=
  mk_field "Author" "email" EmptyString "string" "Address of the author".

Definition sample_objects : list row :=
  [ mk_object "Site" "A site"; mk_object "Location" "Where the site is";
    mk_object "Note" "A note"; mk_object "Author" EmptyString ].

(** Location's row stands before Site's rows in the table. *)
Definition sample_fields : list row :=
  [ location_latitude; site_name; site_id; site_notes; note_author; note_flags;
    author_email ].

Definition sample_enum_values : list row :=
  [ mk_enum_value "Status" "A" "Active"; mk_enum_value "Status" "I" "Inactive" ].

Definition sample_dir : directory :=
  list_to_map [ ("objects.csv", sample_objects); ("fields.csv", sample_fields);
                ("enum_values.csv", sample_enum_values) ].

Definition sample_data : Sectioned.data :=
  Sectioned.Data sample_objects sample_fields sample_enum_values.

Definition sample_children : gmap string (list GenerateHierarchy.child_entry) :=
  {[ "Site" := [("notes", "Note", true)]; "Note" := [("author", "Author", false)] ]}.

(** A schema in which no field refers to Note: Note and Author hang under
    no parent. *)
Definition orphan_objects : list row :=
  [ mk_object "Site" "A site"; mk_object "Note" "A note";
    mk_object "Author" EmptyString ].
Definition orphan_fields : list row := [ site_name; note_author; author_email ].


(** Distance from the leaves, and from the root, in the sample schema. *)
Definition sample_height (o : string) : nat :=
  if decide (o = "Site") then 2
  else if decide (o = "Note") then 1
  else 0.

Definition sample_depth (o : string) : nat :=
  if decide (o = "Author") then 2
  else if decide (o = "Note") then 1
  else 0.

(** A schema with a back reference: a note refers to the site it is on. *)
Definition cyclic_children : gmap string (list GenerateHierarchy.child_entry) :=
  {[ "Site" := [("notes", "Note", true)]; "Note" := [("site", "Site", false)] ]}.

(** A schema with a self-reference: the replies to a note are notes. *)
Definition note_replies : row :=
  mk_field "Note" "replies" EmptyString "Note[]" "Replies to the note".
Definition thread_data : Sectioned.data :=
  Sectioned.Data [mk_object "Note" "A note"] [note_replies] [].

(** The sample schema with an object that nothing refers to. *)
Definition widget_children : gmap string (list GenerateHierarchy.child_entry) :=
  <["Widget" := [("part", "Gadget", false)]]> sample_children.
Definition widget_primitives : gmap string (list GenerateHierarchy.prim_entry) :=
  {[ "Site" := [("name", "string", "The name of the site")];
     "Widget" := [("size", "int", "Size of the widget")] ]}.


End Examples.

(** ** Proof steps used throughout *)

(** Run the binds of [result] whose left side is known. *)
Ltac run := cbn [mbind result_bind].

(** Settle a decidable closed statement by evaluation. *)
Ltac by_evaluation := apply (bool_decide_unpack _); vm_compute; exact I.

(** * Properties *)

Import GenerateHierarchy Sectioned Examples.

(** ** Loops and the [result] monad *)

Section loops.
Context {A B : Type}.

(** A loop that appends [g x] to a list for each [x]. *)
Lemma foldl_append_bind (g : B -> list A) (l : list B) (init : list A) :
  foldl (fun acc x => acc ++ g x) init l = init ++ (l ≫= g).
Proof.
  revert init. induction l as [|x l IH]; intros init; simpl.
  - by rewrite app_nil_r.
  - by rewrite IH, app_assoc.
Qed.

Lemma foldM_snoc (body : A -> B -> result A) l x s :
  foldM body (l ++ [x]) s = (foldM body l s) ≫= (fun s' => body s' x).
Proof.
  revert s. induction l as [|y l IH]; intros s; simpl.
  - by destruct (body s x).
  - destruct (body s y) as [s'|e]; simpl; [apply IH | done].
Qed.

Lemma foldM_mono (body body' : A -> B -> result A) (l : list B) :
  (∀ s x s', body s x = Ok s' -> body' s x = Ok s') ->
  ∀ s r, foldM body l s = Ok r -> foldM body' l s = Ok r.
Proof.
  intros Hb. induction l as [|x l IH]; intros s r; simpl; [done|].
  destruct (body s x) as [s'|e] eqn:Hx; run; [|done].
  rewrite (Hb _ _ _ Hx). run. apply IH.
Qed.

(** A loop that appends a section that may raise, for each [x]. *)
Lemma foldM_append_mapM (g : B -> result (list A)) (l : list B) (init : list A) :
  foldM (fun content x => sec ← g x; Ok (content ++ sec)) l init
  = (secs ← mapM_result g l; Ok (init ++ concat secs)).
Proof.
  revert init. induction l as [|x l IH]; intros init; simpl.
  - by rewrite app_nil_r.
  - destruct (g x) as [sec|e]; run; [|done].
    rewrite IH. destruct (mapM_result g l) as [secs|e]; run; [|done].
    simpl. by rewrite app_assoc.
Qed.

Lemma mapM_result_ok (f : A -> result B) (g : A -> B) l :
  Forall (fun x => f x = Ok (g x)) l -> mapM_result f l = Ok (g <$> l).
Proof.
  induction 1 as [|x l Hx _ IH]; simpl; [done|]. by rewrite Hx, IH.
Qed.

Lemma mapM_result_soft (f : A -> result B) (l : list A) :
  (∀ x, soft_outcome (f x)) -> soft_outcome (mapM_result f l).
Proof.
  intros Hf. induction l as [|x l IH]; simpl; [right; by eexists|].
  destruct (Hf x) as [->|[y ->]]; run; [by left|].
  destruct IH as [->|[ys ->]]; run; [by left|]. right. by eexists.
Qed.

Lemma mapM_result_all_ok (f : A -> result B) (l : list A) :
  (∀ x, x ∈ l -> ∃ y, f x = Ok y) -> ∃ ys, mapM_result f l = Ok ys.
Proof.
  induction l as [|x l IH]; intros Hf; simpl; [by eexists|].
  destruct (Hf x) as [y ->]; [by left|].
  destruct IH as [ys ->]; [intros z Hz; apply Hf; by right|].
  run. by eexists.
Qed.

End loops.

Lemma getitem_present (r : row) k : is_Some (r !! k) -> getitem r k = Ok (get r k).
Proof. intros [v Hv]. unfold getitem, get. by rewrite Hv. Qed.

(** ** Grouping loops *)

Section grouping.
Context {A B : Type} (key : A -> string) (val : A -> B).

Section with_filter.
Context (P : A -> Prop) `{!∀ x, Decision (P x)}.

Lemma grouped_nil : grouped key val P [] (∅ : gmap string (list B)).
Proof. intros k. by rewrite lookup_empty. Qed.

(** An iteration that leaves the dictionary alone. *)
Lemma grouped_skip l x m :
  ¬ P x -> grouped key val P l m -> grouped key val P (l ++ [x]) m.
Proof.
  intros HP Hm k. rewrite filter_app.
  rewrite filter_cons_False by (intros [_ ?]; done).
  rewrite filter_nil, app_nil_r. apply Hm.
Qed.

(** An iteration that appends the entry of [x] under its key. *)
Lemma grouped_append l x m :
  P x -> grouped key val P l m ->
  grouped key val P (l ++ [x]) (append_to m (key x) (val x)).
Proof.
  intros HP Hm k. unfold append_to. rewrite filter_app.
  destruct (decide (key x = k)) as [Hk|Hne].
  - subst k. rewrite lookup_insert_eq.
    rewrite filter_cons_True by (split; done).
    rewrite filter_nil, Hm. rewrite fmap_app. simpl.
    destruct (decide (filter _ l ++ [x] = [])) as [Heq|_];
      [by apply app_eq_nil in Heq as [_ ?]|].
    by destruct (decide (filter _ l = [])) as [->|?].
  - rewrite lookup_insert_ne by done.
    rewrite filter_cons_False by (intros [? _]; done).
    rewrite filter_nil, app_nil_r. apply Hm.
Qed.

Lemma grouped_lookup_default l m k :
  grouped key val P l m ->
  default [] (m !! k) = val <$> filter (fun x => key x = k ∧ P x) l.
Proof.
  intros Hm. rewrite Hm. destruct (decide _) as [->|?]; done.
Qed.

Lemma grouped_lookup_nonempty l m k v :
  grouped key val P l m -> m !! k = Some v -> v ≠ [].
Proof.
  intros Hm. rewrite Hm. destruct (decide _) as [|Hne]; [done|].
  intros [= <-]. by intros ?%fmap_nil_inv.
Qed.

End with_filter.

(** A grouping loop on a [defaultdict(list)], from the empty dictionary. *)
Lemma group_loop_grouped (l : list A) :
  grouped key val (fun _ => True) l
    (foldl (fun m x => append_to m (key x) (val x)) ∅ l).
Proof.
  induction l as [|x l IH] using rev_ind.
  - apply grouped_nil.
  - rewrite foldl_snoc. by apply grouped_append.
Qed.

Lemma group_loop_lookup (l : list A) k :
  default [] (foldl (fun m x => append_to m (key x) (val x)) ∅ l !! k)
  = val <$> filter (fun x => key x = k) l.
Proof.
  rewrite (grouped_lookup_default _ _ _ k (group_loop_grouped l)).
  f_equal. apply list_filter_iff. intros x. split; [by intros [? _] | done].
Qed.

Lemma group_loop_nonempty (l : list A) k v :
  foldl (fun m x => append_to m (key x) (val x)) ∅ l !! k = Some v -> v ≠ [].
Proof. apply (grouped_lookup_nonempty _ _ _ _ _ (group_loop_grouped l)). Qed.



End grouping.

(** ** The merge of Location into Site *)

(** Lookups after the merge, for a map whose present keys hold non-empty lists. *)
Lemma merge_location_lookup {A} (m : gmap string (list A)) o :
  (∀ k v, m !! k = Some v -> v ≠ []) ->
  default [] (merge_location m !! o) = merged (fun k => default [] (m !! k)) o.
Proof.
  intros Hne. unfold merge_location, merged.
  destruct (m !! "Location") as [loc|] eqn:Hloc;
    destruct (m !! "Site") as [site|] eqn:Hsite; cbn [default];
    destruct (decide (_ ∧ _)) as [[H1 H2]|Hn]; try done.
  - destruct (decide (o = "Site")) as [->|Hs].
    + rewrite lookup_delete_ne by done. by rewrite lookup_insert_eq.
    + destruct (decide (o = "Location")) as [->|Hl].
      * by rewrite lookup_delete_eq.
      * by rewrite lookup_delete_ne, lookup_insert_ne by done.
  - destruct Hn. split; by eapply Hne.
Qed.

Lemma merged_fmap {A B} (g : A -> B) (rows : string -> list A) o :
  merged (fun k => g <$> rows k) o = g <$> merged rows o.
Proof.
  unfold merged.
  destruct (decide (rows "Location" ≠ [] ∧ rows "Site" ≠ [])) as [[H1 H2]|Hn].
  - rewrite decide_True.
    + repeat case_decide; by rewrite ?fmap_app.
    + split; by intros ?%fmap_nil_inv.
  - rewrite decide_False; [done|].
    intros [H1 H2]. apply Hn. split; intros E; [apply H1 | apply H2]; by rewrite E.
Qed.

Lemma fields_by_object_lookup fields o :
  default [] (fields_by_object fields !! o) = filter (owned_by o) fields.
Proof.
  unfold fields_by_object.
  rewrite (group_loop_lookup (fun f => get f "object") id). by rewrite list_fmap_id.
Qed.

Lemma fields_by_object_nonempty fields k v :
  fields_by_object fields !! k = Some v -> v ≠ [].
Proof. apply (group_loop_nonempty (fun f => get f "object") id). Qed.

Lemma merged_fields_by_object_lookup fields o :
  default [] (merge_location (fields_by_object fields) !! o)
  = merged (fun k => filter (owned_by k) fields) o.
Proof.
  rewrite merge_location_lookup by apply fields_by_object_nonempty.
  unfold merged. by rewrite !fields_by_object_lookup.
Qed.

(** ** The resolver loop of [build_tree] *)

(** One iteration of the loop on a row that has its columns. *)
Lemma classify_field_present names vbe ch pr f :
  has_columns field_columns f ->
  classify_field names vbe (ch, pr) f =
    Ok (if decide (json_named f) then
          if decide (is_reference names f)
          then (append_to ch (get f "object") (as_child f), pr)
          else (ch, append_to pr (get f "object") (as_prim vbe f))
        else (ch, pr)).
Proof.
  intros Hc. unfold has_columns, field_columns in Hc.
  rewrite !Forall_cons in Hc. destruct Hc as (Ht & Hj & Ho & Hd & _).
  unfold classify_field.
  rewrite (getitem_present _ _ Ht), (getitem_present _ _ Hj),
    (getitem_present _ _ Ho), (getitem_present _ _ Hd). run.
  unfold json_named, is_reference, as_child, as_prim.
  destruct (decide (get f "json_name" = EmptyString)) as [E|E].
  - by destruct (decide (get f "json_name" ≠ EmptyString)).
  - destruct (decide (get f "json_name" ≠ EmptyString)); [|done].
    by destruct (decide (_ ∈ names)).
Qed.

(** The loop: both maps group the JSON-named rows by owner. *)
Lemma resolve_fields_grouped names vbe fields :
  Forall (has_columns field_columns) fields ->
  ∃ ch pr,
    resolve_fields names vbe fields = Ok (ch, pr) ∧
    grouped (fun f => get f "object") as_child
      (fun f => json_named f ∧ is_reference names f) fields ch ∧
    grouped (fun f => get f "object") (as_prim vbe)
      (fun f => json_named f ∧ ¬ is_reference names f) fields pr.
Proof.
  unfold resolve_fields.
  induction fields as [|f fields IH] using rev_ind; intros Hall.
  - exists ∅, ∅. split; [done|]. split; apply grouped_nil.
  - apply Forall_app in Hall as [Hall Hf]. apply Forall_cons in Hf as [Hf _].
    destruct (IH Hall) as (ch & pr & Hrun & Hch & Hpr).
    rewrite foldM_snoc, Hrun. run.
    rewrite (classify_field_present _ _ _ _ _ Hf).
    destruct (decide (json_named f)) as [Hj|Hj].
    + destruct (decide (is_reference names f)) as [Hr|Hr].
      * eexists _, _. split; [done|]. split.
        -- by apply (grouped_append (fun f => get f "object") as_child).
        -- apply grouped_skip; [|done]. by intros [_ ?].
      * eexists _, _. split; [done|]. split.
        -- apply grouped_skip; [|done]. by intros [_ ?].
        -- by apply (grouped_append (fun f => get f "object") (as_prim vbe)).
    + eexists _, _. split; [done|].
      split; (apply grouped_skip; [|done]); by intros [? _].
Qed.

(** C1, as amended: for a table whose rows have the columns the loop reads,
    the resolver loop of [build_tree] files every row that has a JSON name
    under its owner: the entry (field name, base type, is-array flag) in the
    owner's children list, and in no primitives list, when the type stripped
    of the array marker is the name of a known Object; the entry with the
    computed display label in the owner's primitives list otherwise.  A row
    without a JSON name is in neither list. *)
Theorem resolver_classifies_json_named_rows
    (names : gset string) (vbe : gmap string (list string)) (fields : list row) :
  Forall (has_columns field_columns) fields ->
  ∃ ch pr,
    resolve_fields names vbe fields = Ok (ch, pr) ∧
    ∀ o, default [] (ch !! o) = as_child <$> filter (child_row names o) fields ∧
         default [] (pr !! o) = as_prim vbe <$> filter (prim_row names o) fields.
Proof.
  intros Hall. destruct (resolve_fields_grouped names vbe fields Hall)
    as (ch & pr & Hrun & Hch & Hpr).
  exists ch, pr. split; [done|]. intros o. split.
  - by rewrite (grouped_lookup_default _ _ _ _ _ o Hch).
  - by rewrite (grouped_lookup_default _ _ _ _ _ o Hpr).
Qed.

(** The theorem of C1 on the sample table. *)
Lemma resolver_classifies_sample_rows :
  Forall (has_columns field_columns) sample_fields ∧
  ∃ ch pr,
    resolve_fields (object_names sample_objects) ∅ sample_fields = Ok (ch, pr) ∧
    ∀ o, default [] (ch !! o)
         = as_child <$> filter (child_row (object_names sample_objects) o) sample_fields ∧
         default [] (pr !! o)
         = as_prim ∅ <$> filter (prim_row (object_names sample_objects) o) sample_fields.
Proof.
  assert (H : Forall (has_columns field_columns) sample_fields) by by_evaluation.
  split; [exact H|].
  exact (resolver_classifies_json_named_rows (object_names sample_objects) ∅
           sample_fields H).
Defined.

(** C1 as stated fails: a row of a primitive type without a JSON name is
    appended to no primitives list. *)
Lemma csv_only_row_is_not_resolved :
  (base_type_of (get site_id "type") ∉ ({[ "Note" ]} : gset string)) ∧
  resolve_fields {[ "Note" ]} ∅ [site_id] = Ok (∅, ∅).
Proof. split; [|reflexivity]. vm_compute. intros H. discriminate H. Qed.

(** ** [build_tree] as a whole *)

Lemma object_desc_of_ok objects :
  Forall (has_columns object_columns) objects ->
  ∃ desc, object_desc_of objects = Ok desc.
Proof.
  unfold object_desc_of.
  induction objects as [|obj objects IH] using rev_ind; intros Hall.
  - by exists ∅.
  - apply Forall_app in Hall as [Hall Hobj]. apply Forall_cons in Hobj as [Hobj _].
    destruct (IH Hall) as [desc Hdesc]. rewrite foldM_snoc, Hdesc.
    unfold has_columns, object_columns in Hobj. rewrite !Forall_cons in Hobj.
    destruct Hobj as (Hn & Hd & _). run.
    rewrite (getitem_present _ _ Hn), (getitem_present _ _ Hd). by eexists.
Qed.

(** [build_tree] on a directory that holds the three tables with their columns. *)
Lemma build_tree_runs dir fields objects enum_values :
  dir !! "fields.csv" = Some fields ->
  dir !! "objects.csv" = Some objects ->
  dir !! "enum_values.csv" = Some enum_values ->
  Forall (has_columns field_columns) fields ->
  Forall (has_columns object_columns) objects ->
  ∃ ch pr desc,
    resolve_fields (object_names objects)
      (GenerateHierarchy.values_by_enum enum_values) fields = Ok (ch, pr) ∧
    object_desc_of objects = Ok desc ∧
    build_tree dir = Ok (ch, merge_location pr, desc).
Proof.
  intros Hf Ho He Hfc Hoc.
  destruct (resolve_fields_grouped (object_names objects)
              (GenerateHierarchy.values_by_enum enum_values) fields Hfc)
    as (ch & pr & Hrun & _).
  destruct (object_desc_of_ok objects Hoc) as [desc Hdesc].
  exists ch, pr, desc. split; [done|]. split; [done|].
  unfold build_tree, GenerateHierarchy.load_csv. rewrite Hf, Ho, He. run.
  rewrite (mapM_result_ok _ (fun obj => get obj "name")).
  - run. rewrite Hdesc. run.
    unfold object_names in Hrun. by rewrite Hrun.
  - eapply Forall_impl; [exact Hoc|]. intros obj Hc.
    apply getitem_present. unfold has_columns, object_columns in Hc.
    by apply Forall_cons in Hc as [? _].
Qed.

(** C3, as amended: the grouping loops never re-sort.  For every object
    name, the children list [build_tree] returns, the [fields_by_object]
    group of [generate_json_html] and the one of [generate_csv_html] are that
    object's qualifying rows in the order of the fields table; so are the
    primitives list and the JSON group up to the merge, which puts Location's
    entries, in their table order, after Site's own, wherever Location's rows
    stand in the table. *)
Theorem resolved_lists_keep_row_order
    (dir : directory) (fields objects enum_values : list row) :
  dir !! "fields.csv" = Some fields ->
  dir !! "objects.csv" = Some objects ->
  dir !! "enum_values.csv" = Some enum_values ->
  Forall (has_columns field_columns) fields ->
  Forall (has_columns object_columns) objects ->
  let names := object_names objects in
  let vbe := GenerateHierarchy.values_by_enum enum_values in
  (∃ ch pr desc,
     build_tree dir = Ok (ch, pr, desc) ∧
     ∀ o, default [] (ch !! o) = as_child <$> filter (child_row names o) fields ∧
          default [] (pr !! o)
          = as_prim vbe <$> merged (fun k => filter (prim_row names k) fields) o) ∧
  (∀ o, default [] (fields_by_object fields !! o) = filter (owned_by o) fields) ∧
  (∀ o, default [] (merge_location (fields_by_object fields) !! o)
        = merged (fun k => filter (owned_by k) fields) o) ∧
  (∀ o, default [] (fields_by_object (csv_fields fields) !! o)
        = filter (owned_by o) (csv_fields fields)).
Proof.
  intros Hf Ho He Hfc Hoc names vbe. split; [|split; [|split]].
  - destruct (build_tree_runs dir fields objects enum_values Hf Ho He Hfc Hoc)
      as (ch & pr & desc & Hrun & _ & Hbuild).
    destruct (resolve_fields_grouped names vbe fields Hfc)
      as (ch' & pr' & Hrun' & Hch & Hpr).
    fold names vbe in Hrun. rewrite Hrun in Hrun'. injection Hrun' as <- <-.
    exists ch, (merge_location pr), desc. split; [done|]. intros o. split.
    + by rewrite (grouped_lookup_default _ _ _ _ _ o Hch).
    + rewrite merge_location_lookup
        by (intros k v Hkv; exact (grouped_lookup_nonempty _ _ _ _ _ _ _ Hpr Hkv)).
      rewrite <- merged_fmap. unfold merged.
      by rewrite !(grouped_lookup_default _ _ _ _ _ _ Hpr).
  - apply fields_by_object_lookup.
  - apply merged_fields_by_object_lookup.
  - intros o. apply fields_by_object_lookup.
Qed.

(** The theorem of C3 on the sample directory: Site's primitives are its own
    entry and then Location's. *)
Lemma resolved_lists_of_sample_dir :
  Forall (has_columns field_columns) sample_fields ∧
  Forall (has_columns object_columns) sample_objects ∧
  ∃ ch pr desc,
    build_tree sample_dir = Ok (ch, pr, desc) ∧
    default [] (pr !! "Site")
    = as_prim (GenerateHierarchy.values_by_enum sample_enum_values)
        <$> [site_name; location_latitude].
Proof.
  assert (Hf : Forall (has_columns field_columns) sample_fields) by by_evaluation.
  assert (Ho : Forall (has_columns object_columns) sample_objects) by by_evaluation.
  split; [exact Hf|]. split; [exact Ho|].
  destruct (resolved_lists_keep_row_order sample_dir sample_fields sample_objects
              sample_enum_values eq_refl eq_refl eq_refl Hf Ho)
    as [(ch & pr & desc & Hrun & Hlists) _].
  exists ch, pr, desc. split; [exact Hrun|].
  destruct (Hlists "Site") as [_ ->]. vm_compute. reflexivity.
Defined.

(** C3 as stated fails: in the sample table Location's row is the first and
    Site's rows follow, yet in the lists resolved for Site the entry of
    Location's row is the last. *)
Lemma merged_site_list_is_not_in_row_order :
  (fun f => (get f "object", get f "json_name")) <$> sample_fields
  = [ ("Location", "latitude"); ("Site", "name"); ("Site", EmptyString);
      ("Site", "notes"); ("Note", "author"); ("Note", "flags"); ("Author", "email") ] ∧
  match build_tree sample_dir with
  | Ok (_, pr, _) => pr !! "Site"
  | Raise _ => None
  end = Some [ ("name", "string", "The name of the site");
               ("latitude", "float", "Latitude of the site") ] ∧
  (fun f => (get f "object", get f "json_name"))
    <$> default [] (merge_location (fields_by_object sample_fields) !! "Site")
  = [ ("Site", "name"); ("Site", EmptyString); ("Site", "notes");
      ("Location", "latitude") ].
Proof. repeat split; vm_compute; reflexivity. Qed.

(** ** The CSV page *)

Lemma filter_owned_csv_fields fields o :
  filter (owned_by o) (csv_fields fields)
  = filter (fun f => get f "csv_column" ≠ EmptyString ∧ get f "object" = o) fields.
Proof.
  unfold csv_fields. rewrite list_filter_filter.
  apply list_filter_iff. intros f. unfold owned_by. tauto.
Qed.

(** The loop over [sections], for either script's section body. *)
Lemma csv_content_sections (section : string * string -> list row -> list string)
    (overview : list string) fields :
  foldl (fun content sec =>
           content ++ section sec
             (default [] (fields_by_object (csv_fields fields) !! sec.1)))
        overview sections
  = overview ++
    (sections ≫= fun sec =>
       section sec
         (filter (fun f => get f "csv_column" ≠ EmptyString ∧ get f "object" = sec.1)
                 fields)).
Proof.
  rewrite foldl_append_bind. f_equal. apply list_bind_ext; [|done].
  intros sec. by rewrite fields_by_object_lookup, filter_owned_csv_fields.
Qed.


(** ** The JSON pages *)






(** ** Type cells *)






(** ** Loaders *)

(** C6, as amended: [load_csv] of generate_html.py and generate_html_wp.py
    returns the rows of a file that exists, in order and without output, and
    for an absent file prints a warning and returns the empty list, so that
    [load_all_data] always returns three tables.  [load_csv] of
    generate_hierarchy.py returns the rows of a file that exists and raises
    [FileNotFoundError] for an absent one, which ends the run of [main]. *)
Theorem loaders_on_present_and_absent_files (dir : directory) (filename : string) :
  (∀ rows, dir !! filename = Some rows ->
     Sectioned.load_csv dir filename = ([], rows) ∧
     GenerateHierarchy.load_csv dir filename = Ok rows) ∧
  (dir !! filename = None ->
     Sectioned.load_csv dir filename = (["Warning: " +:+ filename +:+ " not found"], []) ∧
     GenerateHierarchy.load_csv dir filename = Raise (FileNotFoundError filename)) ∧
  (load_all_data dir).2
  = Data (default [] (dir !! "objects.csv")) (default [] (dir !! "fields.csv"))
         (default [] (dir !! "enum_values.csv")) ∧
  (∀ limit name,
     name ∈ ["fields.csv"; "objects.csv"; "enum_values.csv"] ->
     dir !! name = None ->
     ∃ missing, missing ∈ ["fields.csv"; "objects.csv"; "enum_values.csv"] ∧
                GenerateHierarchy.main limit dir = Raise (FileNotFoundError missing)).
Proof.
  split; [|split; [|split]].
  - intros rows H. unfold Sectioned.load_csv, GenerateHierarchy.load_csv. by rewrite H.
  - intros H. unfold Sectioned.load_csv, GenerateHierarchy.load_csv. by rewrite H.
  - unfold load_all_data, Sectioned.load_csv.
    by destruct (dir !! "objects.csv"), (dir !! "fields.csv"), (dir !! "enum_values.csv").
  - intros limit name Hin Hnone.
    unfold main, build_tree, GenerateHierarchy.load_csv.
    destruct (dir !! "fields.csv") as [fs|] eqn:Ef; run;
      [|exists "fields.csv"; split; [repeat constructor|done]].
    destruct (dir !! "objects.csv") as [os|] eqn:Eo; run;
      [|exists "objects.csv"; split; [repeat constructor|done]].
    destruct (dir !! "enum_values.csv") as [es|] eqn:Ee; run;
      [|exists "enum_values.csv"; split; [repeat constructor|done]].
    rewrite !elem_of_cons, elem_of_nil in Hin.
    destruct Hin as [->|[->|[->|[]]]]; congruence.
Qed.

(** C6 as stated fails: for an absent file the loader of
    generate_hierarchy.py raises, and the run of its [main] ends there, where
    the loader of the other two scripts warns and returns no rows. *)
Lemma hierarchy_loader_raises_on_absent_file :
  GenerateHierarchy.load_csv (delete "enum_values.csv" sample_dir) "enum_values.csv"
  = Raise (FileNotFoundError "enum_values.csv") ∧
  main 10 (delete "enum_values.csv" sample_dir)
  = Raise (FileNotFoundError "enum_values.csv") ∧
  Sectioned.load_csv (delete "enum_values.csv" sample_dir) "enum_values.csv"
  = (["Warning: enum_values.csv not found"], []).
Proof. repeat split; vm_compute; reflexivity. Qed.

(** ** The nested-box page *)

(** [render_node] indexes no dictionary without a guard: besides returning
    it can only exceed the recursion depth. *)
Lemma render_node_soft limit ch pr desc obj field arr depth :
  soft_outcome (render_node limit ch pr desc obj field arr depth).
Proof.
  revert obj field arr depth.
  induction limit as [|limit IH]; intros obj field arr depth; simpl; [by left|].
  destruct (ch !! obj) as [cs|]; run; [|right; by eexists].
  match goal with
  | |- context [mapM_result ?f cs] =>
      destruct (mapM_result_soft f cs) as [->|[items ->]]
  end.
  - intros [[cf ct] ca]. apply IH.
  - by left.
  - run. right. by eexists.
Qed.



(** ** Termination of the traversals *)

Lemma string_app_assoc (s1 s2 s3 : string) : (s1 +:+ s2) +:+ s3 = s1 +:+ (s2 +:+ s3).
Proof.
  induction s1 as [|a s1 IH]; [done|].
  change (String a ((s1 +:+ s2) +:+ s3) = String a (s1 +:+ (s2 +:+ s3))).
  by rewrite IH.
Qed.

Lemma string_app_nil_r (s : string) : s +:+ EmptyString = s.
Proof.
  induction s as [|a s IH]; [done|].
  change (String a (s +:+ EmptyString) = String a s). by rewrite IH.
Qed.

Lemma join_empty_cons (x : string) (l : list string) :
  join EmptyString (x :: l) = x +:+ join EmptyString l.
Proof.
  destruct l as [|y l]; [by rewrite string_app_nil_r|]. done.
Qed.

Lemma join_empty_snoc (l : list string) (x : string) :
  join EmptyString (l ++ [x]) = join EmptyString l +:+ x.
Proof.
  induction l as [|y l IH]; [done|].
  rewrite <- app_comm_cons, !join_empty_cons, IH. by rewrite string_app_assoc.
Qed.

Lemma dotted_snoc top hops f (arr : bool) :
  dotted top (hops ++ [(f, arr)])
  = dotted top hops +:+ "." +:+ f +:+ (if arr then "[]" else EmptyString).
Proof.
  unfold dotted. rewrite fmap_app.
  change (hop_text <$> [(f, arr)]) with [hop_text (f, arr)].
  rewrite join_empty_snoc. by rewrite string_app_assoc.
Qed.

Section visited_nodes.
Context (nodes visited : gset string) (a : string).
Hypothesis (Hin : a ∈ nodes) (Hfresh : a ∉ visited).

(** Visiting a fresh node leaves fewer nodes to visit. *)
Lemma fresh_node_shrinks (n : nat) :
  (size (nodes ∖ visited) ≤ S n)%nat ->
  (size (nodes ∖ (visited ∪ {[a]})) ≤ n)%nat.
Proof.
  intros Hsize.
  assert (size (nodes ∖ (visited ∪ {[a]})) < size (nodes ∖ visited))%nat; [|lia].
  apply subset_size. split.
  - intros x. rewrite !elem_of_difference, elem_of_union. tauto.
  - intros Hsub. specialize (Hsub a).
    rewrite !elem_of_difference, elem_of_union, elem_of_singleton in Hsub. tauto.
Qed.

Lemma no_fresh_node : (size (nodes ∖ visited) ≤ 0)%nat -> False.
Proof.
  intros Hsize.
  assert (Hempty : nodes ∖ visited ≡ ∅) by (apply size_empty_inv; lia).
  apply (not_elem_of_empty (C := gset string) a), (Hempty a), elem_of_difference.
  done.
Qed.

End visited_nodes.

(** [render_node] returns when the objects on the path down to [obj] are
    [visited] and the depth left exceeds the number of objects not visited. *)
Lemma render_node_terminates_from ch pr desc (n : nat) :
  acyclic (child_edge ch) ->
  ∀ (visited : gset string) obj,
    (size (dom ch ∖ visited) ≤ n)%nat ->
    (∀ v, v ∈ visited -> tc (child_edge ch) v obj) ->
    ∀ limit field arr depth, (n < limit)%nat ->
      ∃ html, render_node limit ch pr desc obj field arr depth = Ok html.
Proof.
  intros Hacyc.
  induction n as [|n IH]; intros visited obj Hsize Hpath limit field arr depth Hlim.
  - destruct limit as [|limit]; [lia|]. simpl.
    destruct (ch !! obj) as [cs|] eqn:Hobj; run; [|by eexists].
    exfalso. apply (no_fresh_node (dom ch) visited obj); [|intros Hv|done].
    + apply elem_of_dom. by eexists.
    + by apply (Hacyc obj), Hpath.
  - destruct limit as [|limit]; [lia|]. simpl.
    destruct (ch !! obj) as [cs|] eqn:Hobj; run; [|by eexists].
    assert (Hfresh : obj ∉ visited) by (intros Hv; by apply (Hacyc obj), Hpath).
    match goal with
    | |- context [mapM_result ?f cs] => destruct (mapM_result_all_ok f cs) as [items ->]
    end.
    + intros [[cf ct] ca] Hc.
      apply (IH (visited ∪ {[obj]})); [|intros v Hv|lia].
      * apply fresh_node_shrinks; [|done|done]. apply elem_of_dom. by eexists.
      * assert (Hedge : child_edge ch obj ct).
        { unfold child_edge. exists cf, ca. by rewrite Hobj. }
        apply elem_of_union in Hv as [Hv|Hv%elem_of_singleton].
        -- eapply tc_r; [by apply Hpath|done].
        -- subst v. by apply tc_once.
    + run. by eexists.
Qed.

(** [compute_json_path] returns the dotted path of the walk, under the same
    measure. *)
Lemma compute_json_path_terminates_from pm (n : nat) :
  acyclic (parent_edge pm) ->
  ∀ (visited : gset string) obj,
    (size (dom pm ∖ visited) ≤ n)%nat ->
    (∀ v, v ∈ visited -> tc (parent_edge pm) v obj) ->
    ∀ limit, (n < limit)%nat ->
      ∃ hops top, walk pm obj hops top ∧
                  compute_json_path limit pm obj = Ok (dotted top hops).
Proof.
  intros Hacyc. induction n as [|n IH]; intros visited obj Hsize Hpath limit Hlim.
  - destruct limit as [|limit]; [lia|]. simpl.
    destruct (decide (obj = "Site" ∨ obj = "Location")) as [Hr|Hr].
    { exists [], obj. split; [apply walk_stop; by left|].
      unfold dotted. by rewrite decide_True by done. }
    destruct (pm !! obj) as [[[par f] arr]|] eqn:Hobj.
    + exfalso. apply (no_fresh_node (dom pm) visited obj); [|intros Hv|done].
      * apply elem_of_dom. by eexists.
      * by apply (Hacyc obj), Hpath.
    + exists [], obj. split; [apply walk_stop; by right|].
      unfold dotted. by rewrite decide_False by done.
  - destruct limit as [|limit]; [lia|]. simpl.
    destruct (decide (obj = "Site" ∨ obj = "Location")) as [Hr|Hr].
    { exists [], obj. split; [apply walk_stop; by left|].
      unfold dotted. by rewrite decide_True by done. }
    destruct (pm !! obj) as [[[par f] arr]|] eqn:Hobj.
    + assert (Hfresh : obj ∉ visited) by (intros Hv; by apply (Hacyc obj), Hpath).
      destruct (IH (visited ∪ {[obj]}) par) with (limit := limit)
        as (hops & top & Hwalk & ->); [|intros v Hv|lia|].
      * apply fresh_node_shrinks; [|done|done]. apply elem_of_dom. by eexists.
      * assert (Hedge : parent_edge pm obj par) by (by exists f, arr).
        apply elem_of_union in Hv as [Hv|Hv%elem_of_singleton].
        -- eapply tc_r; [by apply Hpath|done].
        -- subst v. by apply tc_once.
      * exists (hops ++ [(f, arr)]), top. split; [by eapply walk_hop|].
        run. by rewrite dotted_snoc.
    + exists [], obj. split; [apply walk_stop; by right|].
      unfold dotted. by rewrite decide_False by done.
Qed.

Lemma walk_top pm obj hops top :
  walk pm obj hops top -> is_root top ∨ pm !! top = None.
Proof. induction 1; done. Qed.

(** C9, as amended: when the object-reference relation of the children map
    has no cycle, [render_node] from the fixed root pair returns at every
    depth bound from some bound on; when that of [parent_map] has none,
    [compute_json_path] returns at every depth bound from some bound on, and
    what it returns is the dotted path of the upward walk: the walk stops at
    Site or Location, for which the path starts with the literal of the root,
    or at an object without a parent, for which it starts empty, and each
    hop adds a dot, the field name and the array suffix, the hop nearest to
    the top first. *)
Theorem acyclic_traversals_terminate
    (ch : gmap string (list child_entry)) (pr : gmap string (list prim_entry))
    (desc : gmap string string) (pm : gmap string (string * string * bool))
    (obj : string) :
  acyclic (child_edge ch) ->
  acyclic (parent_edge pm) ->
  (∃ limit, ∀ limit', (limit ≤ limit')%nat ->
     ∃ html, generate_html limit' ch pr desc = Ok html) ∧
  (∃ limit, ∀ limit', (limit ≤ limit')%nat ->
     ∃ hops top,
       walk pm obj hops top ∧
       (is_root top ∨ pm !! top = None) ∧
       compute_json_path limit' pm obj = Ok (dotted top hops)).
Proof.
  intros Hch Hpm. split.
  - exists (S (size (dom ch))). intros limit Hlim. unfold generate_html.
    destruct (render_node_terminates_from ch pr desc (size (dom ch)) Hch ∅ "Site")
      with (limit := limit) (field := Some "sites") (arr := true) (depth := 0)
      as [html ->]; [|intros v Hv; by apply not_elem_of_empty in Hv|lia|].
    + apply subseteq_size. intros x. rewrite elem_of_difference. tauto.
    + run. by eexists.
  - exists (S (size (dom pm))). intros limit Hlim.
    destruct (compute_json_path_terminates_from pm (size (dom pm)) Hpm ∅ obj)
      with (limit := limit) as (hops & top & Hwalk & Hrun);
      [|intros v Hv; by apply not_elem_of_empty in Hv|lia|].
    + apply subseteq_size. intros x. rewrite elem_of_difference. tauto.
    + exists hops, top. split; [done|]. split; [by eapply walk_top|done].
Qed.

(** A relation that strictly lowers a rank has no cycle. *)
Lemma acyclic_by_rank {A} (R : relation A) (rank : A -> nat) :
  (∀ a b, R a b -> (rank b < rank a)%nat) -> acyclic R.
Proof.
  intros Hr.
  assert (Htc : ∀ x y, tc R x y -> (rank y < rank x)%nat).
  { induction 1 as [x y Hxy|x y z Hxy _ IH]; [by apply Hr|].
    specialize (Hr _ _ Hxy). lia. }
  intros a Ha. specialize (Htc _ _ Ha). lia.
Qed.

Lemma child_edges_ranked (ch : gmap string (list child_entry)) (rank : string -> nat) :
  map_Forall (fun a cs => Forall (fun c : child_entry => (rank c.1.2 < rank a)%nat) cs) ch ->
  ∀ a b, child_edge ch a b -> (rank b < rank a)%nat.
Proof.
  intros Hall a b (f & arr & Hin).
  destruct (ch !! a) as [cs|] eqn:Ha; simpl in Hin; [|by apply elem_of_nil in Hin].
  specialize (Hall _ _ Ha). rewrite Forall_forall in Hall.
  apply (Hall _ Hin).
Qed.

Lemma parent_edges_ranked (pm : gmap string (string * string * bool))
    (rank : string -> nat) :
  map_Forall (fun a (p : string * string * bool) => (rank p.1.1 < rank a)%nat) pm ->
  ∀ a b, parent_edge pm a b -> (rank b < rank a)%nat.
Proof.
  intros Hall a b (f & arr & Ha). apply (Hall _ _ Ha).
Qed.

(** The theorem of C9 on the sample schema Site, Note, Author. *)
Lemma sample_traversals_terminate :
  (∃ limit, ∀ limit', (limit ≤ limit')%nat ->
     ∃ html, generate_html limit' sample_children ∅ ∅ = Ok html) ∧
  (∃ limit, ∀ limit', (limit ≤ limit')%nat ->
     ∃ hops top,
       walk (parent_map (object_names sample_objects) sample_fields) "Author" hops top ∧
       (is_root top
        ∨ parent_map (object_names sample_objects) sample_fields !! top = None) ∧
       compute_json_path limit' (parent_map (object_names sample_objects) sample_fields)
         "Author" = Ok (dotted top hops)).
Proof.
  apply (acyclic_traversals_terminate sample_children ∅ ∅
           (parent_map (object_names sample_objects) sample_fields) "Author").
  - apply (acyclic_by_rank _ sample_height), child_edges_ranked. by_evaluation.
  - apply (acyclic_by_rank _ sample_depth), parent_edges_ranked. by_evaluation.
Defined.

(** C9 as stated fails: in a schema without a cycle in which no field refers
    to Note, the walk from Author stops at Note, which is no root, and the
    paths computed for Note and Author do not start at the root. *)
Lemma orphan_path_does_not_reach_root :
  acyclic (parent_edge (parent_map (object_names orphan_objects) orphan_fields)) ∧
  walk (parent_map (object_names orphan_objects) orphan_fields)
    "Author" [("author", false)] "Note" ∧
  ¬ is_root "Note" ∧
  compute_json_path 5 (parent_map (object_names orphan_objects) orphan_fields) "Note"
  = Ok EmptyString ∧
  compute_json_path 5 (parent_map (object_names orphan_objects) orphan_fields) "Author"
  = Ok ".author".
Proof.
  split; [|split; [|split; [|split]]].
  - apply (acyclic_by_rank _ sample_depth), parent_edges_ranked. by_evaluation.
  - apply (walk_hop _ "Author" "Note" "author" false [] "Note").
    + by_evaluation.
    + vm_compute. reflexivity.
    + apply walk_stop. right. vm_compute. reflexivity.
  - by_evaluation.
  - vm_compute. reflexivity.
  - vm_compute. reflexivity.
Qed.

(** ** Determinism of the WordPress pages *)

(** A deeper bound does not change what [compute_json_path] returns. *)
Lemma compute_json_path_mono (l l' : nat) pm obj p :
  compute_json_path l pm obj = Ok p -> (l ≤ l')%nat -> compute_json_path l' pm obj = Ok p.
Proof.
  revert l' obj p. induction l as [|l IH]; intros l' obj p Hrun Hle; [done|].
  destruct l' as [|l']; [lia|]. simpl in *.
  destruct (decide (obj = "Site" ∨ obj = "Location")); [done|].
  destruct (pm !! obj) as [[[par f] arr]|]; [|done].
  destruct (compute_json_path l pm par) as [pp|e] eqn:Hpar; [|done].
  rewrite (IH l' par pp Hpar) by lia. done.
Qed.





(** The standalone pages, by contrast, change with the clock. *)
Example standalone_page_changes_with_clock :
  GenerateHtml.generate_csv_html "2026-01-01 10:00" sample_data
  ≠ GenerateHtml.generate_csv_html "2026-01-01 10:01" sample_data.
Proof. apply (bool_decide_eq_false_1 _). vm_compute. reflexivity. Qed.

(** The WordPress JSON page of the sample data is returned at depth 3. *)
Example wordpress_json_page_of_sample_data_returns :
  ∃ html, GenerateHtmlWp.generate_json_html 3 sample_data = Ok html.
Proof. vm_compute. by eexists. Qed.

(** ** The scenarios of the specification, evaluated *)

(** One object Widget with one field name of type string: the JSON page has
    the overview and one section, with one row. *)
Example widget_page_has_one_section :
  GenerateHtmlWp.json_content 2
    (Data [mk_row [("name", "Widget")]]
          [mk_row [("object", "Widget"); ("json_name", "name"); ("type", "string")]] [])
  = Ok (GenerateHtmlWp.overview
        ++ GenerateHtmlWp.section_head "Widget" EmptyString EmptyString
        ++ ["<tr><td><code>name</code></td><td>string</td><td></td></tr>"]
        ++ GenerateHtmlWp.section_tail).
Proof. vm_compute. reflexivity. Qed.

(** A field of the enum Status: values on the JSON page, labels on the CSV page. *)
Example status_cells_by_format :
  GenerateHtmlWp.type_html ∅ (values_by_enum sample_enum_values) (base_type_of "Status")
  = "A, I" ∧
  GenerateHtmlWp.csv_type_html (values_by_enum sample_enum_values) "Status"
  = "Active, Inactive".
Proof. split; vm_compute; reflexivity. Qed.

(** A field of type Note[] is filed under children with its array flag set,
    and the pages append the array marker to its name. *)
Example note_array_is_a_child :
  resolve_fields (object_names sample_objects) ∅ [site_notes]
  = Ok ({[ "Site" := [("notes", "Note", true)] ]}, ∅) ∧
  GenerateHtmlWp.field_cells (object_names sample_objects) ∅ site_notes
  = [ "<tr><td><code>notes[]</code></td><td><a href=" +:+ dq +:+ "#obj-note" +:+ dq
      +:+ ">Note</a></td><td>Notes on the site</td></tr>" ] ∧
  render_node 1 ∅ ∅ ∅ "Note" (Some "notes") true 1
  = Ok (node_box "#fff3e0" "#ff9800" "notes[]" "Note" EmptyString EmptyString EmptyString).
Proof. repeat split; vm_compute; reflexivity. Qed.

(** * Further properties *)

(** ** Escaping *)

Lemma chars_app s1 s2 : chars (s1 +:+ s2) = chars s1 ++ chars s2.
Proof.
  induction s1 as [|a s1 IH]; [done|].
  change (a :: chars (s1 +:+ s2) = a :: (chars s1 ++ chars s2)). by rewrite IH.
Qed.

Lemma encode_app code s1 s2 :
  encode code (s1 +:+ s2) = encode code s1 +:+ encode code s2.
Proof.
  induction s1 as [|a s1 IH]; [done|].
  change (code a +:+ encode code (s1 +:+ s2)
          = (code a +:+ encode code s1) +:+ encode code s2).
  by rewrite IH, string_app_assoc.
Qed.

Lemma encode_ext code code' s :
  (∀ a, code a = code' a) -> encode code s = encode code' s.
Proof. intros H. induction s as [|a s IH]; [done|]. simpl. by rewrite H, IH. Qed.

Lemma encode_encode f g s :
  encode g (encode f s) = encode (fun a => encode g (f a)) s.
Proof.
  induction s as [|a s IH]; [done|].
  simpl. by rewrite encode_app, IH.
Qed.

Lemma replace_encode c by_ s :
  replace c by_ s
  = encode (fun a => if Ascii.eqb a c then by_ else String a EmptyString) s.
Proof.
  induction s as [|a s IH]; [done|].
  simpl. rewrite IH. by destruct (Ascii.eqb a c).
Qed.

Lemma escape_html_encode text : escape_html text = encode html_entity text.
Proof.
  unfold escape_html. rewrite !replace_encode, !encode_encode.
  apply encode_ext. intros a.
  destruct a as [[] [] [] [] [] [] [] []]; reflexivity.
Qed.

Lemma escape_encode s : escape s = encode html_entity_quoted s.
Proof.
  unfold escape. rewrite !replace_encode, !encode_encode.
  apply encode_ext. intros a.
  destruct a as [[] [] [] [] [] [] [] []]; reflexivity.
Qed.

Lemma chars_encode_avoids code (x : ascii) s :
  (∀ a, x ∉ chars (code a)) -> x ∉ chars (encode code s).
Proof.
  intros H. induction s as [|a s IH]; simpl.
  - by apply not_elem_of_nil.
  - rewrite chars_app, elem_of_app. intros [?|?]; [by eapply H | done].
Qed.

Lemma html_entity_avoids (x : ascii) a :
  x ∈ ["<"; ">"; ascii_of_nat 34]%char -> x ∉ chars (html_entity a).
Proof.
  intros Hx. unfold html_entity.
  destruct (Ascii.eqb_spec a "&") as [->|?];
    [repeat (apply elem_of_cons in Hx as [->|Hx]); [by_evaluation..|by apply elem_of_nil in Hx]|].
  destruct (Ascii.eqb_spec a "<") as [->|?];
    [repeat (apply elem_of_cons in Hx as [->|Hx]); [by_evaluation..|by apply elem_of_nil in Hx]|].
  destruct (Ascii.eqb_spec a ">") as [->|?];
    [repeat (apply elem_of_cons in Hx as [->|Hx]); [by_evaluation..|by apply elem_of_nil in Hx]|].
  destruct (Ascii.eqb_spec a (ascii_of_nat 34)) as [->|?];
    [repeat (apply elem_of_cons in Hx as [->|Hx]); [by_evaluation..|by apply elem_of_nil in Hx]|].
  change (chars (String a EmptyString)) with [a].
  rewrite list_elem_of_singleton. intros ->.
  repeat (apply elem_of_cons in Hx as [Hx|Hx]); try done.
  by apply elem_of_nil in Hx.
Qed.

Lemma html_entity_quoted_avoids (x : ascii) a :
  x ∈ ["<"; ">"; ascii_of_nat 34; "'"]%char -> x ∉ chars (html_entity_quoted a).
Proof.
  intros Hx. unfold html_entity_quoted.
  destruct (Ascii.eqb_spec a "'") as [->|?];
    [repeat (apply elem_of_cons in Hx as [->|Hx]); [by_evaluation..|by apply elem_of_nil in Hx]|].
  apply elem_of_cons in Hx as [->|Hx]; [by apply html_entity_avoids; set_solver|].
  apply elem_of_cons in Hx as [->|Hx]; [by apply html_entity_avoids; set_solver|].
  apply elem_of_cons in Hx as [->|Hx]; [by apply html_entity_avoids; set_solver|].
  apply list_elem_of_singleton in Hx as ->.
  unfold html_entity.
  destruct (Ascii.eqb_spec a "&") as [->|?]; [by_evaluation|].
  destruct (Ascii.eqb_spec a "<") as [->|?]; [by_evaluation|].
  destruct (Ascii.eqb_spec a ">") as [->|?]; [by_evaluation|].
  destruct (Ascii.eqb_spec a (ascii_of_nat 34)) as [->|?]; [by_evaluation|].
  change (chars (String a EmptyString)) with [a].
  rewrite list_elem_of_singleton. congruence.
Qed.

(** X1: text that went through [escape_html] holds no [<], no [>] and no
    double quote, and text that went through [html.escape] holds no
    apostrophe either: whatever a cell of the tables says, the escaped cell
    cannot open or close a tag or an attribute. *)
Theorem escaped_text_holds_no_markup_character (text : string) :
  Forall (fun a => a ∉ chars (escape_html text)) ["<"; ">"; ascii_of_nat 34]%char ∧
  Forall (fun a => a ∉ chars (escape text)) ["<"; ">"; ascii_of_nat 34; "'"]%char.
Proof.
  rewrite escape_html_encode, escape_encode, !Forall_forall.
  split; intros x Hx; apply chars_encode_avoids; intros a.
  - by apply html_entity_avoids.
  - by apply html_entity_quoted_avoids.
Qed.

Lemma html_entity_cons_inj a b r1 r2 :
  html_entity a +:+ r1 = html_entity b +:+ r2 -> a = b ∧ r1 = r2.
Proof.
  unfold html_entity.
  destruct (Ascii.eqb_spec a "&") as [->|?]; [|
    destruct (Ascii.eqb_spec a "<") as [->|?]; [|
      destruct (Ascii.eqb_spec a ">") as [->|?]; [|
        destruct (Ascii.eqb_spec a (ascii_of_nat 34)) as [->|?]]]];
  (destruct (Ascii.eqb_spec b "&") as [->|?]; [|
    destruct (Ascii.eqb_spec b "<") as [->|?]; [|
      destruct (Ascii.eqb_spec b ">") as [->|?]; [|
        destruct (Ascii.eqb_spec b (ascii_of_nat 34)) as [->|?]]]]);
  cbv beta iota fix delta [String.append]; intros H;
  try discriminate H; try (injection H as ?; by subst); try (injection H as ? ?; congruence).
Qed.

Lemma html_entity_app_nonempty a r : html_entity a +:+ r ≠ EmptyString.
Proof.
  unfold html_entity.
  repeat (match goal with |- context [Ascii.eqb ?x ?y] => destruct (Ascii.eqb x y) end);
  cbv beta iota fix delta [String.append]; discriminate.
Qed.

(** X2: [escape_html] loses nothing: two texts with the same escaped form
    are the same text. *)
Theorem escape_html_loses_nothing (text1 text2 : string) :
  escape_html text1 = escape_html text2 <-> text1 = text2.
Proof.
  split; [|by intros ->].
  rewrite !escape_html_encode. revert text2.
  induction text1 as [|a s1 IH]; intros [|b s2]; simpl; intros H.
  - done.
  - symmetry in H. by apply html_entity_app_nonempty in H.
  - by apply html_entity_app_nonempty in H.
  - apply html_entity_cons_inj in H as [-> H]. by rewrite (IH _ H).
Qed.

Lemma escape_html_app s1 s2 :
  escape_html (s1 +:+ s2) = escape_html s1 +:+ escape_html s2.
Proof. rewrite !escape_html_encode. apply encode_app. Qed.

(** X3: escaping a list of values joined with [", "] gives the escaped
    values joined with [", "].  [build_tree] joins the raw values of an enum
    and [render_node] escapes the joined label; the result is the one the
    sectioned pages get by escaping each value before the join (up to the
    apostrophe, which only [html.escape] replaces). *)
Theorem escape_html_of_joined_values (values : list string) :
  escape_html (join ", " values) = join ", " (escape_html <$> values).
Proof.
  unfold join.
  induction values as [|x [|y l] IH]; [done..|].
  change (escape_html (x +:+ ", " +:+ String.concat ", " (y :: l))
          = escape_html x +:+ ", " +:+ String.concat ", " (escape_html <$> y :: l)).
  by rewrite !escape_html_app, IH.
Qed.

(** ** The array marker and [parent_map] *)

Lemma endswith_refl s : endswith s s = true.
Proof. destruct s; simpl; [done|]. by rewrite Ascii.eqb_refl, String.eqb_refl. Qed.

Lemma endswith_app p suf : endswith (p +:+ suf) suf = true.
Proof.
  induction p as [|a p IH]; [apply endswith_refl|].
  change (endswith (String a (p +:+ suf)) suf = true).
  unfold endswith; fold endswith. rewrite IH. by case_match.
Qed.

Lemma endswith_inv s suf : endswith s suf = true -> ∃ p, s = p +:+ suf.
Proof.
  induction s as [|a s IH]; unfold endswith; fold endswith.
  - destruct (String.eqb_spec EmptyString suf) as [<-|]; [|done]. by exists EmptyString.
  - destruct (String.eqb_spec (String a s) suf) as [<-|].
    + by exists EmptyString.
    + intros [p ->]%IH. by exists (String a p).
Qed.

Lemma substring_app_prefix p s : String.substring 0 (String.length p) (p +:+ s) = p.
Proof.
  induction p as [|a p IH]; [by destruct s|].
  change (String a (String.substring 0 (String.length p) (p +:+ s)) = String a p).
  by rewrite IH.
Qed.

Lemma length_app_marker p : String.length (p +:+ "[]") = S (S (String.length p)).
Proof.
  induction p as [|a p IH]; [done|].
  change (S (String.length (p +:+ "[]")) = S (S (S (String.length p)))). by rewrite IH.
Qed.

Lemma drop_last2_app p : drop_last2 (p +:+ "[]") = p.
Proof.
  unfold drop_last2. rewrite length_app_marker.
  replace (S (S (String.length p)) - 2)%nat with (String.length p) by lia.
  apply substring_app_prefix.
Qed.

(** X4: the array marker is split off and put back without loss.  A type
    written as a base type followed by [[]] is flagged as an array and
    stripped to that base type, and every type string is its base type
    followed by the marker when, and only when, it is flagged. *)
Theorem array_marker_is_split_off_and_put_back (s : string) :
  (is_array_type (s +:+ "[]") = true ∧ base_type_of (s +:+ "[]") = s) ∧
  s = base_type_of s +:+ (if is_array_type s then "[]" else EmptyString).
Proof.
  split.
  - unfold base_type_of, is_array_type. rewrite endswith_app. split; [done|].
    apply drop_last2_app.
  - unfold base_type_of, is_array_type.
    destruct (endswith s "[]") eqn:E.
    + apply endswith_inv in E as [p ->]. by rewrite drop_last2_app.
    + by rewrite string_app_nil_r.
Qed.

(** X5: [parent_map] keeps, for an object type, the last row of the fields
    table that has a JSON name and refers to that type (array marker
    stripped, the type being a known object): a later row overwrites an
    earlier one, and a type no such row refers to has no entry. *)
Theorem parent_map_keeps_the_last_referring_row
    (names : gset string) (fields : list row) (t : string) :
  parent_map names fields !! t = as_parent <$> last (filter (refers_to names t) fields).
Proof.
  unfold parent_map.
  induction fields as [|f fields IH] using rev_ind; [done|].
  rewrite foldl_snoc, filter_app.
  destruct (decide (refers_to names t f)) as [Hr|Hr].
  - rewrite (filter_cons_True _ _ _ Hr), filter_nil, last_snoc.
    destruct Hr as (Hj & <- & Hin).
    rewrite decide_False by done. rewrite decide_True by done.
    by rewrite lookup_insert_eq.
  - rewrite (filter_cons_False _ _ _ Hr), filter_nil, app_nil_r, <- IH.
    destruct (decide (get f "json_name" = EmptyString)); [done|].
    destruct (decide (base_type_of (get f "type") ∈ names)); [|done].
    rewrite lookup_insert_ne; [done|].
    intros <-. by apply Hr.
Qed.

(** ** The rows of the JSON sections *)



(** ** Rows and navigation of the CSV pages *)

Lemma bind_ext_in {A B} (f g : A -> list B) (l : list A) :
  (∀ x, x ∈ l -> f x = g x) -> l ≫= f = l ≫= g.
Proof.
  induction l as [|x l IH]; intros H; [done|].
  rewrite !bind_cons. rewrite (H x) by by left. rewrite IH; [done|].
  intros y Hy. apply H. by right.
Qed.

Lemma foldl_ext_in {A B} (f g : A -> B -> A) (l : list B) (a : A) :
  (∀ a x, x ∈ l -> f a x = g a x) -> foldl f a l = foldl g a l.
Proof.
  revert a. induction l as [|x l IH]; intros a H; [done|].
  simpl. rewrite (H a x) by by left. apply IH.
  intros a' y Hy. apply H. by right.
Qed.

Lemma filter_on_csv_page (fields : list row) o :
  o ∈ sections.*1 ->
  filter (fun f => get f "csv_column" ≠ EmptyString ∧ get f "object" = o)
         (filter on_csv_page fields)
  = filter (fun f => get f "csv_column" ≠ EmptyString ∧ get f "object" = o) fields.
Proof.
  intros Ho. rewrite list_filter_filter. apply list_filter_iff.
  intros f. unfold on_csv_page. split; [tauto|]. intros [? E]. rewrite E. tauto.
Qed.

Lemma csv_rows_lookup (fields : list row) o :
  default [] (fields_by_object (csv_fields fields) !! o)
  = filter (fun f => get f "csv_column" ≠ EmptyString ∧ get f "object" = o) fields.
Proof. by rewrite fields_by_object_lookup, filter_owned_csv_fields. Qed.

Lemma wp_csv_nav_items_bind fbo :
  GenerateHtmlWp.csv_nav_items fbo
  = sections ≫= fun sec =>
      if decide (default [] (fbo !! sec.1) = []) then [] else [csv_nav_link sec].
Proof.
  unfold GenerateHtmlWp.csv_nav_items.
  rewrite <- (app_nil_l (sections ≫= _)), <- foldl_append_bind.
  apply foldl_ext_in. intros acc [o disp] _. simpl.
  destruct (decide (default [] (fbo !! o) = [])); [by rewrite app_nil_r|done].
Qed.


(** X7: the CSV pages of both scripts are unchanged when every row without
    a CSV column, and every row owned by an object outside the seven declared
    sections, is dropped from the fields table; the objects table is not read
    at all. *)
Theorem csv_pages_show_only_rows_of_the_declared_sections
    (now : string) (d : data) (objs : list row) :
  let d' := Data objs (filter on_csv_page (fields d)) (enum_values d) in
  GenerateHtml.generate_csv_html now d' = GenerateHtml.generate_csv_html now d ∧
  GenerateHtmlWp.generate_csv_html d' = GenerateHtmlWp.generate_csv_html d.
Proof.
  intros d'. subst d'.
  unfold GenerateHtml.generate_csv_html, GenerateHtmlWp.generate_csv_html.
  unfold GenerateHtml.csv_content, GenerateHtmlWp.csv_content.
  cbn [fields enum_values].
  rewrite !csv_content_sections, !wp_csv_nav_items_bind.
  assert (∀ (section : string * string -> list row -> list string),
            (sections ≫= fun sec =>
               section sec
                 (filter (fun f => get f "csv_column" ≠ EmptyString ∧ get f "object" = sec.1)
                    (filter on_csv_page (fields d))))
            = (sections ≫= fun sec =>
               section sec
                 (filter (fun f => get f "csv_column" ≠ EmptyString ∧ get f "object" = sec.1)
                    (fields d)))) as Hsec.
  { intros section. apply bind_ext_in. intros sec Hsec.
    rewrite filter_on_csv_page; [done|]. by apply list_elem_of_fmap_2. }
  rewrite !Hsec. split; [done|].
  do 2 f_equal. apply bind_ext_in. intros sec Hsec'.
  rewrite !csv_rows_lookup, filter_on_csv_page; [done|]. by apply list_elem_of_fmap_2.
Qed.



(** ** Cycles *)

Lemma leads_to_cycle_step {A} (R : relation A) a :
  leads_to_cycle R a -> ∃ b, R a b ∧ leads_to_cycle R b.
Proof.
  intros (c & Hac & Hc).
  inversion Hac as [|? b ? Hab Hbc]; subst.
  - inversion Hc as [? ? Hab|? b ? Hab Hba]; subst.
    + exists c. split; [done|]. by exists c.
    + exists b. split; [done|]. exists c. split; [by apply tc_rtc|done].
  - exists b. split; [done|]. by exists c.
Qed.

Lemma mapM_result_raises {A B} (f : A -> result B) (l : list A) x :
  x ∈ l -> f x = Raise RecursionError -> (∀ y, soft_outcome (f y)) ->
  mapM_result f l = Raise RecursionError.
Proof.
  intros Hx Hfx Hsoft. induction l as [|a l IH]; [by apply elem_of_nil in Hx|].
  simpl. apply elem_of_cons in Hx as [<-|Hx].
  - by rewrite Hfx.
  - destruct (Hsoft a) as [->|[y ->]]; [done|]. run. by rewrite (IH Hx).
Qed.

(** X9: when the children map leads from an object into a cycle,
    [render_node] exceeds every recursion limit from that object, and so does
    [generate_html] when the object is the root: there is no guard against a
    back reference. *)
Theorem render_node_exceeds_every_limit_on_a_cycle
    (ch : gmap string (list child_entry)) (pr : gmap string (list prim_entry))
    (desc : gmap string string) (obj : string) :
  leads_to_cycle (child_edge ch) obj ->
  ∀ limit,
    (∀ field arr depth,
       render_node limit ch pr desc obj field arr depth = Raise RecursionError) ∧
    (obj = "Site" -> generate_html limit ch pr desc = Raise RecursionError).
Proof.
  intros Hcyc limit.
  assert (∀ field arr depth,
            render_node limit ch pr desc obj field arr depth = Raise RecursionError) as H.
  { revert obj Hcyc. induction limit as [|limit IH]; intros obj Hcyc field arr depth;
      [done|].
    apply leads_to_cycle_step in Hcyc as (b & (f & barr & Hin) & Hb).
    simpl. destruct (ch !! obj) as [cs|]; [|by apply elem_of_nil in Hin].
    simpl in Hin.
    rewrite (mapM_result_raises _ cs (f, b, barr)); [done|done| |].
    - by apply IH.
    - intros [[? ?] ?]. apply render_node_soft. }
  split; [done|]. intros ->. unfold generate_html. by rewrite H.
Qed.

(** X9 on a schema in which a note refers back to its site. *)
Lemma render_node_exceeds_every_limit_on_back_reference :
  leads_to_cycle (child_edge cyclic_children) "Site" ∧
  ∀ limit,
    (∀ field arr depth,
       render_node limit cyclic_children ∅ ∅ "Site" field arr depth
       = Raise RecursionError) ∧
    ("Site" = "Site" -> generate_html limit cyclic_children ∅ ∅ = Raise RecursionError).
Proof.
  assert (leads_to_cycle (child_edge cyclic_children) "Site") as H.
  { exists "Site". split; [done|].
    apply (tc_l _ _ "Note"); [|apply tc_once].
    - exists "notes", true. by_evaluation.
    - exists "site", false. by_evaluation. }
  split; [done|].
  apply (render_node_exceeds_every_limit_on_a_cycle cyclic_children ∅ ∅ "Site" H).
Defined.

Lemma compute_json_path_soft limit pm obj :
  soft_outcome (compute_json_path limit pm obj).
Proof.
  revert obj. induction limit as [|limit IH]; intros obj; [by left|].
  simpl. destruct (decide _); [right; by eexists|].
  destruct (pm !! obj) as [[[par f] arr]|]; [|right; by eexists].
  destruct (IH par) as [->|[p ->]]; [by left|right; by eexists].
Qed.

Lemma object_section_soft limit names vbe pm fbo obj :
  soft_outcome (GenerateHtml.object_section limit names vbe pm fbo obj).
Proof.
  unfold GenerateHtml.object_section.
  destruct (compute_json_path_soft limit pm (get obj "name")) as [->|[p ->]];
    [by left|]. run. destruct (decide _); right; by eexists.
Qed.

Lemma wp_object_section_soft limit names vbe pm fbo obj :
  soft_outcome (GenerateHtmlWp.object_section limit names vbe pm fbo obj).
Proof.
  unfold GenerateHtmlWp.object_section.
  destruct (compute_json_path_soft limit pm (get obj "name")) as [->|[p ->]];
    [by left|]. run. destruct (decide _); right; by eexists.
Qed.

Lemma compute_json_path_on_cycle pm obj :
  leads_to_cycle (climb pm) obj ->
  ∀ limit, compute_json_path limit pm obj = Raise RecursionError.
Proof.
  intros Hcyc limit. revert obj Hcyc.
  induction limit as [|limit IH]; intros obj Hcyc; [done|].
  apply leads_to_cycle_step in Hcyc as (b & (Hroot & f & arr & Hpm) & Hb).
  simpl. rewrite decide_False by done. rewrite Hpm. by rewrite (IH _ Hb).
Qed.

(** X10: when the parent chain of an object that has a section leads into
    a cycle (it never reaches Site, Location or an object without parent),
    [compute_json_path] exceeds every recursion limit, and with it
    [generate_json_html] of both scripts: no JSON page is returned. *)
Theorem json_page_exceeds_every_limit_on_a_cycle (d : data) (obj : row) :
  let pm := parent_map (object_names (objects d)) (fields d) in
  let fbo := merge_location (fields_by_object (fields d)) in
  obj ∈ json_objects (objects d) fbo ->
  leads_to_cycle (climb pm) (get obj "name") ->
  ∀ limit,
    compute_json_path limit pm (get obj "name") = Raise RecursionError ∧
    GenerateHtmlWp.generate_json_html limit d = Raise RecursionError ∧
    ∀ now, GenerateHtml.generate_json_html limit now d = Raise RecursionError.
Proof.
  intros pm fbo Hobj Hcyc limit.
  pose proof (compute_json_path_on_cycle pm _ Hcyc limit) as Hpath.
  split; [done|]. split; [|intros now].
  - unfold GenerateHtmlWp.generate_json_html, GenerateHtmlWp.json_content.
    rewrite foldM_append_mapM.
    rewrite (mapM_result_raises _ _ obj); [done|done| |].
    + unfold GenerateHtmlWp.object_section. fold pm. by rewrite Hpath.
    + intros y. apply wp_object_section_soft.
  - unfold GenerateHtml.generate_json_html, GenerateHtml.json_content.
    rewrite foldM_append_mapM.
    rewrite (mapM_result_raises _ _ obj); [done|done| |].
    + unfold GenerateHtml.object_section. fold pm. by rewrite Hpath.
    + intros y. apply object_section_soft.
Qed.

(** X10 on a schema in which the replies to a note are notes. *)
Lemma json_page_exceeds_every_limit_on_self_reference :
  mk_object "Note" "A note"
    ∈ json_objects (objects thread_data)
        (merge_location (fields_by_object (fields thread_data))) ∧
  leads_to_cycle
    (climb (parent_map (object_names (objects thread_data)) (fields thread_data)))
    (get (mk_object "Note" "A note") "name") ∧
  ∀ limit,
    compute_json_path limit
      (parent_map (object_names (objects thread_data)) (fields thread_data))
      (get (mk_object "Note" "A note") "name") = Raise RecursionError ∧
    GenerateHtmlWp.generate_json_html limit thread_data = Raise RecursionError ∧
    ∀ now, GenerateHtml.generate_json_html limit now thread_data = Raise RecursionError.
Proof.
  assert (mk_object "Note" "A note"
            ∈ json_objects (objects thread_data)
                (merge_location (fields_by_object (fields thread_data)))) as H1
    by by_evaluation.
  assert (leads_to_cycle
            (climb (parent_map (object_names (objects thread_data))
                      (fields thread_data)))
            (get (mk_object "Note" "A note") "name")) as H2.
  { exists "Note". split; [reflexivity|]. apply tc_once. split.
    - by_evaluation.
    - exists "replies", true. by_evaluation. }
  split; [done|]. split; [done|].
  apply (json_page_exceeds_every_limit_on_a_cycle thread_data _ H1 H2).
Defined.

(** ** What the nested-box page depends on *)

Lemma restrict_lookup {A} (keep : gset string) (m : gmap string A) a :
  a ∈ keep -> restrict keep m !! a = m !! a.
Proof.
  intros Ha. apply option_eq. intros x. unfold restrict.
  rewrite map_lookup_filter_Some. split; [by intros [? _]|by intros ?].
Qed.

Lemma mapM_result_ext_in {A B} (f g : A -> result B) (l : list A) :
  (∀ x, x ∈ l -> f x = g x) -> mapM_result f l = mapM_result g l.
Proof.
  induction l as [|x l IH]; intros H; [done|].
  simpl. rewrite (H x) by by left. rewrite IH; [done|].
  intros y Hy. apply H. by right.
Qed.

Lemma render_node_restrict ch pr desc (keep : gset string) :
  closed_under ch keep ->
  ∀ limit obj field arr depth, obj ∈ keep ->
    render_node limit (restrict keep ch) (restrict keep pr) (restrict keep desc)
      obj field arr depth
    = render_node limit ch pr desc obj field arr depth.
Proof.
  intros Hclosed. induction limit as [|limit IH]; intros obj field arr depth Hobj;
    [done|].
  simpl. rewrite !restrict_lookup by done.
  destruct (ch !! obj) as [cs|] eqn:Hch; [|done].
  rewrite (mapM_result_ext_in _
             (fun c : child_entry =>
                let '(child_field, child_type, child_is_array) := c in
                render_node limit ch pr desc child_type (Some child_field)
                  child_is_array (depth + 1)) cs); [done|].
  intros [[f b] barr] Hin. apply IH.
  pose proof (Hclosed _ _ Hch Hobj) as Hcs.
  rewrite Forall_forall in Hcs. apply (Hcs _ Hin).
Qed.

(** X11: the nested-box page shows what the root reaches, and nothing
    else.  For a set of object names that holds Site and every object its
    members refer to, dropping all other keys from the three maps leaves the
    page (or the failure) unchanged. *)
Theorem hierarchy_page_shows_what_the_root_reaches
    (ch : gmap string (list child_entry)) (pr : gmap string (list prim_entry))
    (desc : gmap string string) (keep : gset string) (limit : nat) :
  "Site" ∈ keep -> closed_under ch keep ->
  generate_html limit (restrict keep ch) (restrict keep pr) (restrict keep desc)
  = generate_html limit ch pr desc.
Proof.
  intros Hsite Hclosed. unfold generate_html.
  by rewrite render_node_restrict.
Qed.

(** X11 on the sample schema with a Widget that nothing refers to. *)
Lemma hierarchy_page_leaves_out_the_widget :
  "Site" ∈ ({[ "Site"; "Note"; "Author" ]} : gset string) ∧
  closed_under widget_children {[ "Site"; "Note"; "Author" ]} ∧
  restrict {[ "Site"; "Note"; "Author" ]} widget_children !! "Widget" = None ∧
  generate_html 5 (restrict {[ "Site"; "Note"; "Author" ]} widget_children)
    (restrict {[ "Site"; "Note"; "Author" ]} widget_primitives)
    (restrict {[ "Site"; "Note"; "Author" ]} ∅)
  = generate_html 5 widget_children widget_primitives ∅.
Proof.
  assert ("Site" ∈ ({[ "Site"; "Note"; "Author" ]} : gset string)) as H1
    by by_evaluation.
  assert (closed_under widget_children {[ "Site"; "Note"; "Author" ]}) as H2
    by by_evaluation.
  split; [done|]. split; [done|]. split; [by_evaluation|].
  apply (hierarchy_page_shows_what_the_root_reaches _ _ _ _ 5 H1 H2).
Defined.

Lemma palette_lookup_in_range (palette : list string) depth :
  palette ≠ [] -> nth (depth mod length palette) palette EmptyString ∈ palette.
Proof.
  intros Hne. apply list_elem_of_In, nth_In, Nat.mod_upper_bound.
  by destruct palette.
Qed.

(** X12: the colour of a box is always an entry of the palette (the
    index [depth % len(colors)] is in range), and a box rendered eight levels
    deeper is the same box: the palette repeats with period eight. *)
Theorem box_colours_repeat_every_eight_levels
    (ch : gmap string (list child_entry)) (pr : gmap string (list prim_entry))
    (desc : gmap string string) (limit : nat) (obj : string)
    (field : option string) (arr : bool) (depth : nat) :
  nth (depth mod length colors) colors EmptyString ∈ colors ∧
  nth (depth mod length border_colors) border_colors EmptyString ∈ border_colors ∧
  render_node limit ch pr desc obj field arr (depth + 8)
  = render_node limit ch pr desc obj field arr depth.
Proof.
  split; [by apply palette_lookup_in_range|].
  split; [by apply palette_lookup_in_range|].
  revert obj field arr depth.
  induction limit as [|limit IH]; intros obj field arr depth; [done|].
  cbn [render_node].
  change (length colors) with 8%nat. change (length border_colors) with 8%nat.
  replace ((depth + 8) mod 8)%nat with (depth mod 8)%nat
    by (by rewrite <- (Nat.Div0.mod_add depth 1 8)).
  destruct (ch !! obj) as [cs|]; [|done].
  rewrite (mapM_result_ext_in _
             (fun c : child_entry =>
                let '(child_field, child_type, child_is_array) := c in
                render_node limit ch pr desc child_type (Some child_field)
                  child_is_array (depth + 1)) cs); [done|].
  intros [[f b] barr] _.
  replace (depth + 8 + 1)%nat with (depth + 1 + 8)%nat by lia. apply IH.
Qed.

(** ** When [build_tree] returns *)

Lemma getitem_ok_inv (r : row) k v : getitem r k = Ok v -> is_Some (r !! k).
Proof. unfold getitem. destruct (r !! k); [by eexists|done]. Qed.

Lemma foldM_ok_inv {S A} (body : S -> A -> result S) (P : A -> Prop) (l : list A) :
  (∀ s x s', body s x = Ok s' -> P x) ->
  ∀ s r, foldM body l s = Ok r -> Forall P l.
Proof.
  intros H. induction l as [|x l IH]; intros s r Hr; [constructor|].
  simpl in Hr. destruct (body s x) as [s'|e] eqn:E; [|done].
  constructor; [by eapply H|]. by eapply IH.
Qed.

Lemma mapM_result_ok_inv {A B} (f : A -> result B) (P : A -> Prop) (l : list A) :
  (∀ x y, f x = Ok y -> P x) ->
  ∀ ys, mapM_result f l = Ok ys -> Forall P l.
Proof.
  intros H. induction l as [|x l IH]; intros ys Hys; [constructor|].
  simpl in Hys. destruct (f x) as [y|e] eqn:E; [|done].
  cbn [mbind result_bind] in Hys. destruct (mapM_result f l) as [ys'|e] eqn:E'; [|done].
  constructor; [by eapply H|]. by eapply IH.
Qed.

Lemma classify_field_ok_inv names vbe st f st' :
  classify_field names vbe st f = Ok st' -> has_columns field_columns f.
Proof.
  destruct st as [ch pr]. unfold classify_field, getitem, has_columns, field_columns.
  destruct (f !! "type") eqn:E1; [|done].
  destruct (f !! "json_name") eqn:E2; [|done].
  destruct (f !! "object") eqn:E3; [|done].
  destruct (f !! "description") eqn:E4; [|done].
  intros _. repeat constructor; by eexists.
Qed.

Lemma object_desc_of_ok_inv objects desc :
  object_desc_of objects = Ok desc -> Forall (has_columns object_columns) objects.
Proof.
  apply foldM_ok_inv. intros m obj m'. unfold getitem, has_columns, object_columns.
  destruct (obj !! "name") eqn:E1; [|done].
  destruct (obj !! "description") eqn:E2; [|done].
  intros _. repeat constructor; by eexists.
Qed.

Lemma build_tree_ok_inv dir tree :
  build_tree dir = Ok tree ->
  ∃ fields objects enum_values,
    dir !! "fields.csv" = Some fields ∧
    dir !! "objects.csv" = Some objects ∧
    dir !! "enum_values.csv" = Some enum_values ∧
    Forall (has_columns field_columns) fields ∧
    Forall (has_columns object_columns) objects.
Proof.
  intros H. unfold build_tree, GenerateHierarchy.load_csv in H.
  destruct (dir !! "fields.csv") as [fields|]; [|done].
  destruct (dir !! "objects.csv") as [objects|]; [|done].
  destruct (dir !! "enum_values.csv") as [enum_values|]; [|done].
  cbn [mbind result_bind] in H.
  destruct (mapM_result _ objects) as [names|]; [|done].
  cbn [mbind result_bind] in H.
  destruct (object_desc_of objects) as [desc|] eqn:Hdesc; [|done].
  cbn [mbind result_bind] in H.
  destruct (resolve_fields _ _ fields) as [[ch pr]|] eqn:Hres; [|done].
  exists fields, objects, enum_values. repeat split; try done.
  - unfold resolve_fields in Hres. eapply foldM_ok_inv; [|exact Hres].
    intros st f st'. apply classify_field_ok_inv.
  - by eapply object_desc_of_ok_inv.
Qed.


(** ** Runs of [main] of the sectioned scripts *)











(** ** The maps [build_tree] returns *)

Lemma object_desc_of_dom objects desc :
  object_desc_of objects = Ok desc -> dom desc = object_names objects.
Proof.
  unfold object_desc_of, object_names. revert desc.
  induction objects as [|obj objects IH] using rev_ind; intros desc H.
  - injection H as <-. by rewrite dom_empty_L.
  - rewrite foldM_snoc in H.
    destruct (foldM _ objects ∅) as [m|] eqn:E; [|done].
    cbn [mbind result_bind] in H. unfold getitem in H.
    destruct (obj !! "name") as [name|] eqn:E1; [|done].
    destruct (obj !! "description") as [description|] eqn:E2; [|done].
    cbn [mbind result_bind] in H. injection H as <-.
    rewrite dom_insert_L, (IH m eq_refl), fmap_app, list_to_set_app_L.
    assert (get obj "name" = name) as Hname by (unfold get; by rewrite E1).
    rewrite fmap_cons, fmap_nil, Hname. simpl.
    rewrite (right_id_L ∅ (∪)). apply (comm_L (∪)).
Qed.

Lemma merge_location_nonempty {A} (m : gmap string (list A)) :
  (∀ k v, m !! k = Some v -> v ≠ []) ->
  ∀ k v, merge_location m !! k = Some v -> v ≠ [].
Proof.
  intros Hm k v. unfold merge_location.
  destruct (m !! "Location") as [loc|] eqn:EL; [|by apply Hm].
  destruct (m !! "Site") as [site|] eqn:ES; [|by apply Hm].
  destruct (decide (k = "Location")) as [->|Hl]; [by rewrite lookup_delete_eq|].
  rewrite lookup_delete_ne by done.
  destruct (decide (k = "Site")) as [->|Hs].
  - rewrite lookup_insert_eq. intros [= <-]. intros [? _]%app_eq_nil.
    by eapply Hm.
  - rewrite lookup_insert_ne by done. by apply Hm.
Qed.

Lemma merge_location_not_both {A} (m : gmap string (list A)) :
  merge_location m !! "Location" = None ∨ merge_location m !! "Site" = None.
Proof.
  unfold merge_location.
  destruct (m !! "Location") as [loc|] eqn:EL; [|by left].
  destruct (m !! "Site") as [site|] eqn:ES; [|by right].
  left. by rewrite lookup_delete_eq.
Qed.

Lemma Forall_merged {A} (Q : A -> Prop) (rows : string -> list A) o :
  (∀ k, Forall Q (rows k)) -> Forall Q (merged rows o).
Proof.
  intros H. unfold merged. repeat case_decide; try done.
  apply Forall_app. split; apply H.
Qed.

(** X16: the maps [build_tree] returns are well formed.  No key holds an
    empty list; every child entry has a non-empty field name and the name of
    a known object as its type; every primitive entry has a non-empty field
    name; after the merge the primitives map lacks Location or lacks Site;
    and the descriptions map has exactly the known object names as keys. *)
Theorem build_tree_returns_well_formed_maps
    (dir : directory) (ch : gmap string (list child_entry))
    (pr : gmap string (list prim_entry)) (desc : gmap string string) :
  build_tree dir = Ok (ch, pr, desc) ->
  let names := object_names (default [] (dir !! "objects.csv")) in
  (∀ o cs, ch !! o = Some cs ->
     cs ≠ [] ∧ Forall (fun c : child_entry => c.1.1 ≠ EmptyString ∧ c.1.2 ∈ names) cs) ∧
  (∀ o ps, pr !! o = Some ps ->
     ps ≠ [] ∧ Forall (fun p : prim_entry => p.1.1 ≠ EmptyString) ps) ∧
  (pr !! "Location" = None ∨ pr !! "Site" = None) ∧
  dom desc = names.
Proof.
  intros H names.
  destruct (build_tree_ok_inv _ _ H)
    as (fields & objects & enum_values & H1 & H2 & H3 & Hf & Ho).
  destruct (build_tree_runs dir fields objects enum_values H1 H2 H3 Hf Ho)
    as (ch0 & pr0 & desc0 & Hres & Hdesc & Hrun).
  rewrite H in Hrun. injection Hrun as -> -> ->.
  destruct (resolve_fields_grouped (object_names objects)
              (GenerateHierarchy.values_by_enum enum_values) fields Hf)
    as (ch1 & pr1 & Hres' & Hch & Hpr).
  rewrite Hres in Hres'. injection Hres' as <- <-.
  subst names. rewrite H2. simpl.
  split; [|split; [|split]].
  - intros o cs Hcs. split; [by eapply grouped_lookup_nonempty|].
    pose proof (grouped_lookup_default _ _ _ _ _ o Hch) as E.
    rewrite Hcs in E. simpl in E. rewrite E.
    apply Forall_fmap, Forall_forall. intros f [(_ & Hj & Hr) _]%list_elem_of_filter.
    done.
  - intros o ps Hps. split.
    + eapply merge_location_nonempty; [|exact Hps].
      intros k v. by eapply grouped_lookup_nonempty.
    + assert (ps = default [] (merge_location pr0 !! o)) as -> by by rewrite Hps.
      rewrite merge_location_lookup
        by (intros k v; by eapply grouped_lookup_nonempty).
      apply Forall_merged. intros k.
      rewrite (grouped_lookup_default _ _ _ _ _ k Hpr).
      apply Forall_fmap, Forall_forall. intros f [(_ & Hj & _) _]%list_elem_of_filter.
      done.
  - apply merge_location_not_both.
  - by apply object_desc_of_dom.
Qed.

(** X16 on the sample directory. *)
Lemma build_tree_of_sample_dir_is_well_formed :
  ∃ ch pr desc,
    build_tree sample_dir = Ok (ch, pr, desc) ∧
    (∀ o cs, ch !! o = Some cs ->
       cs ≠ [] ∧
       Forall (fun c : child_entry =>
                 c.1.1 ≠ EmptyString
                 ∧ c.1.2 ∈ object_names (default [] (sample_dir !! "objects.csv"))) cs) ∧
    (∀ o ps, pr !! o = Some ps ->
       ps ≠ [] ∧ Forall (fun p : prim_entry => p.1.1 ≠ EmptyString) ps) ∧
    (pr !! "Location" = None ∨ pr !! "Site" = None) ∧
    dom desc = object_names (default [] (sample_dir !! "objects.csv")).
Proof.
  assert (Hf : Forall (has_columns field_columns) sample_fields) by by_evaluation.
  assert (Ho : Forall (has_columns object_columns) sample_objects) by by_evaluation.
  destruct (build_tree_runs sample_dir sample_fields sample_objects
              sample_enum_values eq_refl eq_refl eq_refl Hf Ho)
    as (ch & pr & desc & _ & _ & Hrun).
  exists ch, (merge_location pr), desc. split; [exact Hrun|].
  apply (build_tree_returns_well_formed_maps sample_dir ch (merge_location pr) desc Hrun).
Defined.

(** ** The recursion limit *)

Lemma mapM_result_mono_in {A B} (f g : A -> result B) (l : list A) ys :
  (∀ x y, x ∈ l -> f x = Ok y -> g x = Ok y) ->
  mapM_result f l = Ok ys -> mapM_result g l = Ok ys.
Proof.
  revert ys. induction l as [|x l IH]; intros ys H Hrun; [done|].
  simpl in *. destruct (f x) as [y|e] eqn:E; [|done].
  rewrite (H x y) by (done || by left). cbn [mbind result_bind] in *.
  destruct (mapM_result f l) as [ys'|e] eqn:E'; [|done].
  rewrite (IH ys'); [done| |done].
  intros x' y' Hx'. apply H. by right.
Qed.

Lemma render_node_mono (l l' : nat) ch pr desc obj field arr depth html :
  render_node l ch pr desc obj field arr depth = Ok html -> (l ≤ l')%nat ->
  render_node l' ch pr desc obj field arr depth = Ok html.
Proof.
  revert l' obj field arr depth html.
  induction l as [|l IH]; intros l' obj field arr depth html Hrun Hle; [done|].
  destruct l' as [|l']; [lia|]. cbn [render_node] in *.
  destruct (ch !! obj) as [cs|]; [|done].
  match type of Hrun with
  | context [mapM_result ?f cs] =>
      destruct (mapM_result f cs) as [items|e] eqn:Hitems; [|done]
  end.
  erewrite mapM_result_mono_in; [exact Hrun| |exact Hitems].
  intros [[f b] barr] y _ Hy. apply (IH l'); [done|lia].
Qed.

Lemma object_section_mono (l l' : nat) names vbe pm fbo obj sec :
  GenerateHtml.object_section l names vbe pm fbo obj = Ok sec -> (l ≤ l')%nat ->
  GenerateHtml.object_section l' names vbe pm fbo obj = Ok sec.
Proof.
  unfold GenerateHtml.object_section. intros Hrun Hle.
  destruct (compute_json_path l pm (get obj "name")) as [p|e] eqn:Hp; [|done].
  by rewrite (compute_json_path_mono l l' _ _ _ Hp Hle).
Qed.

(** X17: a page that is produced under one recursion limit is produced,
    unchanged, under every higher limit ([generate_html] of the nested-box
    script and [generate_json_html] of generate_html.py; the WordPress script
    is covered with C10). *)
Theorem pages_do_not_depend_on_the_recursion_limit
    (l l' : nat) (ch : gmap string (list child_entry))
    (pr : gmap string (list prim_entry)) (desc : gmap string string)
    (now : string) (d : data) :
  (l ≤ l')%nat ->
  (∀ page, generate_html l ch pr desc = Ok page ->
           generate_html l' ch pr desc = Ok page) ∧
  (∀ page, GenerateHtml.generate_json_html l now d = Ok page ->
           GenerateHtml.generate_json_html l' now d = Ok page).
Proof.
  intros Hle. split; intros page Hrun.
  - unfold generate_html in *.
    destruct (render_node l ch pr desc "Site" (Some "sites") true 0)
      as [tree|e] eqn:Htree; [|done].
    by rewrite (render_node_mono l l' _ _ _ _ _ _ _ _ Htree Hle).
  - unfold GenerateHtml.generate_json_html, GenerateHtml.json_content in *.
    match type of Hrun with
    | context [foldM ?body ?js ?init] =>
        destruct (foldM body js init) as [content|e] eqn:Hc; [|done]
    end.
    erewrite foldM_mono; [exact Hrun| |exact Hc].
    intros s x s' Hx. cbn beta in *.
    destruct (GenerateHtml.object_section l _ _ _ _ x) as [sec|e] eqn:Hs; [|done].
    by rewrite (object_section_mono l l' _ _ _ _ _ _ Hs Hle).
Qed.

(** X17 on the sample tables, under the limits 3 and 50. *)
Lemma sample_pages_do_not_depend_on_the_recursion_limit :
  (3 ≤ 50)%nat ∧
  (∃ page, generate_html 3 sample_children ∅ ∅ = Ok page ∧
           generate_html 50 sample_children ∅ ∅ = Ok page) ∧
  (∃ page, GenerateHtml.generate_json_html 3 "2026-01-01 10:00" sample_data = Ok page ∧
           GenerateHtml.generate_json_html 50 "2026-01-01 10:00" sample_data = Ok page).
Proof.
  assert (3 ≤ 50)%nat as Hle by lia.
  destruct (pages_do_not_depend_on_the_recursion_limit 3 50 sample_children ∅ ∅
              "2026-01-01 10:00" sample_data Hle) as [H1 H2].
  split; [done|]. split.
  - destruct (generate_html 3 sample_children ∅ ∅) as [page|e] eqn:E.
    + exists page. split; [done|]. by apply H1.
    + vm_compute in E. discriminate E.
  - destruct (GenerateHtml.generate_json_html 3 "2026-01-01 10:00" sample_data)
      as [page|e] eqn:E.
    + exists page. split; [done|]. by apply H2.
    + vm_compute in E. discriminate E.
Defined.

(** ** Markup of the field rows *)

Lemma occurrences_app a s1 s2 :
  occurrences a (s1 +:+ s2) = (occurrences a s1 + occurrences a s2)%nat.
Proof. unfold occurrences. by rewrite chars_app, filter_app, length_app. Qed.

Lemma occurrences_absent a s : a ∉ chars s -> occurrences a s = 0%nat.
Proof.
  unfold occurrences. intros H.
  induction (chars s) as [|c l IH]; [done|].
  apply not_elem_of_cons in H as [Hne Hl].
  rewrite filter_cons_False by (by intros ->). by apply IH.
Qed.

Lemma brackets_are_markup a :
  a ∈ ["<"; ">"]%char ->
  a ∈ ["<"; ">"; ascii_of_nat 34]%char ∧ a ∈ ["<"; ">"; ascii_of_nat 34; "'"]%char
  ∧ a ∉ chars ", ".
Proof.
  intros Ha. repeat (apply elem_of_cons in Ha as [->|Ha]);
    [split; [|split]; by_evaluation..|by apply elem_of_nil in Ha].
Qed.

Lemma occurrences_escape_html a s :
  a ∈ ["<"; ">"]%char -> occurrences a (escape_html s) = 0%nat.
Proof.
  intros (Ha & _ & _)%brackets_are_markup.
  apply occurrences_absent. rewrite escape_html_encode.
  apply chars_encode_avoids. intros c. by apply html_entity_avoids.
Qed.

Lemma occurrences_escape a s :
  a ∈ ["<"; ">"]%char -> occurrences a (escape s) = 0%nat.
Proof.
  intros (_ & Ha & _)%brackets_are_markup.
  apply occurrences_absent. rewrite escape_encode.
  apply chars_encode_avoids. intros c. by apply html_entity_quoted_avoids.
Qed.

Lemma occurrences_joined_escapes a (l : list string) :
  a ∈ ["<"; ">"]%char -> occurrences a (join ", " (escape <$> l)) = 0%nat.
Proof.
  intros Ha. unfold join. induction l as [|x [|y l] IH]; [done| |].
  - by apply occurrences_escape.
  - change (occurrences a (escape x +:+ ", " +:+ String.concat ", " (escape <$> y :: l))
            = 0%nat).
    rewrite !occurrences_app, IH, occurrences_escape by done.
    apply brackets_are_markup in Ha as (_ & _ & Ha).
    by rewrite (occurrences_absent a ", ").
Qed.

Lemma brackets_cases a : a ∈ ["<"; ">"]%char -> a = "<"%char ∨ a = ">"%char.
Proof.
  intros [->|Ha]%elem_of_cons; [by left|].
  apply list_elem_of_singleton in Ha as ->. by right.
Qed.

(** X18: the row rendered for a field holds the angle brackets of its own
    tags and no other, whatever the cells of the tables say: eight [<] and
    eight [>] in [render_node]'s row and in the row of the WordPress CSV
    page, and in the row of the standalone CSV page eight when the type names
    an enum and ten (the [span] around the type) otherwise. *)
Theorem field_rows_carry_no_markup_of_the_data
    (e : prim_entry) (vbe : gmap string (list row)) (f : row) :
  Forall (fun a =>
            occurrences a (field_row e) = 8%nat ∧
            occurrences a (join EmptyString (GenerateHtmlWp.csv_field_cells vbe f)) = 8%nat ∧
            occurrences a (join EmptyString (GenerateHtml.csv_field_cells vbe f))
            = (if decide (is_Some (vbe !! get f "type")) then 8 else 10)%nat)
         ["<"; ">"]%char.
Proof.
  apply Forall_forall. intros a Ha.
  assert (∀ s, occurrences a (escape_html s) = 0%nat) as Hh
    by (intros s; by apply occurrences_escape_html).
  assert (∀ s, occurrences a (escape s) = 0%nat) as He
    by (intros s; by apply occurrences_escape).
  assert (∀ l, occurrences a (join ", " (escape <$> l)) = 0%nat) as Hj
    by (intros l; by apply occurrences_joined_escapes).
  apply brackets_cases in Ha.
  split; [|split].
  - destruct e as [[fname ftype] fdesc]. unfold field_row.
    rewrite !occurrences_app, !Hh. by destruct Ha as [-> | ->].
  - unfold GenerateHtmlWp.csv_field_cells, GenerateHtmlWp.csv_type_html, join.
    cbn [String.concat].
    destruct (vbe !! get f "type") as [vals|];
      [|destruct (decide (get f "type" = "boolean"))];
      rewrite !occurrences_app, ?He, ?Hj; by destruct Ha as [-> | ->].
  - unfold GenerateHtml.csv_field_cells, GenerateHtml.csv_type_html, join.
    cbn [String.concat].
    destruct (vbe !! get f "type") as [vals|];
      [rewrite (decide_True (P := is_Some (Some vals))) by by eexists
      |rewrite (decide_False (P := is_Some None)) by apply is_Some_None;
       destruct (decide (get f "type" = "boolean"))];
      rewrite !occurrences_app, ?He, ?Hj; by destruct Ha as [-> | ->].
Qed.
